(** * Voice AI agent client: session controller and stream reconciliation

    A shallow embedding of the React client of the voice agent
    ([client/src/lib/api.js], [client/src/components/VoiceAgent.jsx],
    [TranscriptView.jsx] and [App.jsx]) and the properties its specification
    states about it.

    Conventions of the embedding:
    - a JavaScript value that came out of [JSON.parse] is a [json];
      [undefined] is the [None] of [option json];
    - the text of a transcript segment is the list of its UTF-16 code
      units;
    - a call that may throw (or an awaited promise that may reject) returns
      an [outcome];
    - network requests are collected in a log next to the result ([io]);
    - React state is a record, an event handler is a function on it, and the
      effects of a component run in [render] after the state they depend on
      has changed. *)

Set Warnings "-register-all".
From Stdlib Require Import ZArith List String Ascii Bool Lia.
From Stdlib Require Import Sorting.Sorted Sorting.Permutation.
From Stdlib Require Import DecimalString.
Import ListNotations.

Local Open Scope string_scope.

(** ** JavaScript values *)

Module JS.

(** A value built by [JSON.parse].  Numbers are taken to be integers,
    which is what the fields read by the client hold (times in ms, page
    counts). *)
Inductive json : Type :=
| JNull
| JBool (b : bool)
| JNumber (n : Z)
| JString (s : string)
| JArray (items : list json)
| JObject (fields : list (string * json)).

(** What a [throw] carries: an [Error] with its [message], or a type error
    or a syntax error of the engine. *)
Inductive exn : Type :=
| Error (message : string)
| TypeError
| SyntaxError.

Inductive outcome (A : Type) : Type :=
| Return (a : A)
| Throw (e : exn).
Arguments Return {A} a.
Arguments Throw {A} e.

Definition bind {A B} (m : outcome A) (k : A -> outcome B) : outcome B :=
  match m with
  | Return a => k a
  | Throw e => Throw e
  end.

(** [ToBoolean]: [null], [false], [0] and the empty string are falsy, every
    array and every object is truthy, the empty ones included. *)
Definition truthy (v : json) : bool :=
  match v with
  | JNull => false
  | JBool b => b
  | JNumber n => negb (n =? 0)%Z
  | JString s => negb (s =? "")
  | JArray _ => true
  | JObject _ => true
  end.

Definition truthy_opt (v : option json) : bool :=
  match v with
  | None => false
  | Some v => truthy v
  end.

(** [a || d] with a literal [d] on the right. *)
Definition or_default (a : option json) (d : json) : json :=
  match a with
  | Some v => if truthy v then v else d
  | None => d
  end.

(** [a || b] where evaluating [b] may throw; [b] is not evaluated when [a]
    is truthy. *)
Definition or_lazy (a : option json) (b : outcome (option json)) : outcome (option json) :=
  if truthy_opt a then Return a else b.

(** The own property [k] of an object built by [JSON.parse]: of two
    members with the same name the later one wins. *)
Fixpoint lookup (k : string) (fields : list (string * json)) : option json :=
  match fields with
  | [] => None
  | (k', v) :: rest =>
      match lookup k rest with
      | Some w => Some w
      | None => if k' =? k then Some v else None
      end
  end.

(** [v.k] for a key [k] that no prototype defines: reading a property of
    [null] throws, a primitive or an array has no such property. *)
Definition get (v : json) (k : string) : outcome (option json) :=
  match v with
  | JNull => Throw TypeError
  | JObject fields => Return (lookup k fields)
  | _ => Return None
  end.

(** The string of an integer as a template literal prints it. *)
Definition string_of_Z (n : Z) : string :=
  NilZero.string_of_int (Z.to_int n).

Definition string_of_nat (n : nat) : string :=
  NilZero.string_of_uint (Nat.to_uint n).

(** [String(v)]: an object prints as "[object Object]", an array as its
    members joined by commas, [null] among them as nothing.  A number
    prints as [string_of_Z] has it, which is what the engine prints for the
    integers a double holds exactly, those up to 2^53 in size. *)
Fixpoint to_string (v : json) : string :=
  match v with
  | JNull => "null"
  | JBool true => "true"
  | JBool false => "false"
  | JNumber n => string_of_Z n
  | JString s => s
  | JArray items =>
      (fix join (members : list json) : string :=
         match members with
         | [] => ""
         | x :: rest =>
             let printed := match x with JNull => "" | _ => to_string x end in
             match rest with
             | [] => printed
             | _ :: _ => printed ++ "," ++ join rest
             end
         end) items
  | JObject _ => "[object Object]"
  end.

(** [new Error(v)]: the message is [v] as a string. *)
Definition new_Error (v : json) : exn := Error (to_string v).

(** A text as the engine holds it: its UTF-16 code units. *)
Definition utf16 : Type := list N.

(** The code units of a text written in the ASCII range. *)
Definition units (s : string) : utf16 := map N_of_ascii (list_ascii_of_string s).

End JS.

Import JS.

(** ** [lib/api.js] *)

Module Api.

Inductive Body : Type :=
| NoBody
| JsonBody (v : json)      (* [JSON.stringify(v)] *)
| FormData (file : string).

Record Options : Type := mkOptions {
  opt_method : option string;
  opt_headers : option (list (string * string));
  opt_body : Body
}.

(** The two arguments of [fetch(url, config)]. *)
Record Request : Type := mkRequest {
  url : string;
  method : option string;
  headers : list (string * string);
  body : Body
}.

Record Response : Type := mkResponse {
  ok : bool;
  status : nat;
  json_body : outcome json   (* what [response.json()] settles to *)
}.

(** A computation that talks to the network: the requests it sent, in
    order, and its result. *)
Definition io (A : Type) : Type := (list Request * outcome A)%type.

Definition requests {A} (m : io A) : list Request := fst m.
Definition result {A} (m : io A) : outcome A := snd m.

Definition API_BASE (VITE_API_URL : option string) : string :=
  match VITE_API_URL with
  | Some u => if u =? "" then "/api" else u
  | None => "/api"
  end.

Definition is_form_data (b : Body) : bool :=
  match b with FormData _ => true | _ => false end.

Definition delete_header (k : string) (hs : list (string * string)) :=
  filter (fun h => negb (fst h =? k)) hs.

Section ApiFetch.

Variable VITE_API_URL : option string.
Variable fetch : Request -> outcome Response.

Definition apiFetch (endpoint : string) (options : Options) : io json :=
  let url := API_BASE VITE_API_URL ++ endpoint in
  (* [...options] comes last in the literal: a [headers] member of the
     options replaces the merged one. *)
  let merged := match opt_headers options with
                | Some hs => hs
                | None => [("Content-Type", "application/json")]
                end in
  let headers := if is_form_data (opt_body options)
                 then delete_header "Content-Type" merged
                 else merged in
  let request := mkRequest url (opt_method options) headers (opt_body options) in
  ([request],
   bind (fetch request) (fun response =>
     if negb (ok response) then
       let error := match json_body response with
                    | Return v => v
                    | Throw _ => JObject [("detail", JString "Unknown error")]
                    end in
       bind (get error "detail") (fun detail =>
         Throw (new_Error (or_default detail
                             (JString ("HTTP " ++ string_of_nat (status response))))))
     else json_body response)).

(** A JavaScript call: a parameter whose argument is missing or
    [undefined] takes its default, arguments beyond the declared
    parameters are dropped. *)
Definition param (args : list (option string)) (i : nat) (default : string) : string :=
  match nth i args None with
  | Some v => v
  | None => default
  end.

(** [getToken(roomName = 'voice-agent-room', participantName = 'user')] *)
Definition getToken (args : list (option string)) : io json :=
  let roomName := param args 0 "voice-agent-room" in
  let participantName := param args 1 "user" in
  apiFetch "/token"
    (mkOptions (Some "POST") None
       (JsonBody (JObject [("room_name", JString roomName);
                           ("participant_name", JString participantName)]))).

End ApiFetch.

End Api.

Import Api.


(** ** [components/VoiceAgent.jsx]: the credential fetch *)

Module Credential.

Record SessionParams : Type := mkSessionParams {
  roomName : string;
  participantName : string
}.

(** The initialiser handed to [useState]: React runs it once, when the
    component mounts.  [randomUUID] is the value [crypto.randomUUID()]
    returns, [None] when [crypto] or its [randomUUID] is not there. *)
Definition initSessionParams (randomUUID : option string) : option SessionParams :=
  match randomUUID with
  | None => None
  | Some sessionId =>
      Some (mkSessionParams ("voice-demo-" ++ sessionId) ("user-" ++ sessionId))
  end.

(** The [options] the session hands to the token source. *)
Record TokenOptions : Type := mkTokenOptions {
  agentName : option string
}.

Record Credentials : Type := mkCredentials {
  participantToken : json;
  serverUrl : json
}.

Definition initialization_in_progress : exn :=
  Error "Session initialization in progress".

Definition missing_connection_fields : exn :=
  Error "Token endpoint response missing LiveKit connection fields".

(** [options?.agentName || 'voice-agent'] *)
Definition agentName_or_default (options : option TokenOptions) : string :=
  match options with
  | Some o =>
      match agentName o with
      | Some a => if a =? "" then "voice-agent" else a
      | None => "voice-agent"
      end
  | None => "voice-agent"
  end.

(** The body of the token source after [await getToken(...)]. *)
Definition credentials_of (data : json) : outcome Credentials :=
  bind (bind (get data "participant_token") (fun a =>
          or_lazy a (bind (get data "accessToken") (fun b =>
            or_lazy b (get data "token")))))
       (fun participantToken =>
  bind (bind (get data "server_url") (fun a =>
          or_lazy a (get data "livekit_url")))
       (fun serverUrl =>
  match participantToken, serverUrl with
  | Some t, Some u =>
      if negb (truthy t) || negb (truthy u)
      then Throw missing_connection_fields
      else Return (mkCredentials t u)
  | _, _ => Throw missing_connection_fields
  end)).

Section TokenSource.

Variable VITE_API_URL : option string.
Variable fetch : Request -> outcome Response.
Variable sessionParams : option SessionParams.

(** The function given to [TokenSource.custom]. *)
Definition tokenSource (options : option TokenOptions) : io Credentials :=
  match sessionParams with
  | None => ([], Throw initialization_in_progress)
  | Some p =>
      let data := getToken VITE_API_URL fetch
                    [Some (roomName p); Some (participantName p);
                     Some (agentName_or_default options)] in
      (requests data, bind (result data) credentials_of)
  end.

End TokenSource.

End Credential.

Import Credential.

(** ** [App.jsx], the data-channel handler and [TranscriptView.jsx] *)

Module Reconciler.

(** A transcription segment as the media library delivers it. *)
Record Segment : Type := mkSegment {
  seg_text : option utf16;
  seg_id : option string;
  seg_final : bool;
  firstReceivedTime : option Z
}.

Record TranscriptData : Type := mkTranscriptData {
  agent_segments : list Segment;
  user_segments : list Segment
}.

(** The state of [App]. *)
Record App : Type := mkApp {
  transcriptData : option TranscriptData;
  ragSources : json
}.

Definition App_initial : App := mkApp None (JArray []).

Definition handleTranscriptUpdate (data : TranscriptData) (app : App) : App :=
  mkApp (Some data) (ragSources app).

Definition handleRagSourcesUpdate (sources : json) (app : App) : App :=
  mkApp (transcriptData app) sources.

(** [data.type === 'rag_sources'] *)
Definition is_rag_sources (ty : option json) : bool :=
  match ty with
  | Some (JString s) => s =? "rag_sources"
  | _ => false
  end.

(** The body of the [try] block, from the parsed payload on.  The result is
    the value handed to [onRagSourcesUpdate], if the call is made. *)
Definition rag_sources_update (data : json) : outcome (option json) :=
  bind (get data "type") (fun ty =>
    if is_rag_sources ty then
      bind (get data "sources") (fun sources =>
        match sources with
        | Some v => if truthy v then Return (Some v) else Return None
        | None => Return None
        end)
    else Return None).

(** The handler of [useDataChannel('rag-sources', ...)].  [parsed] is what
    [JSON.parse(new TextDecoder().decode(msg.payload))] evaluates to;
    [onRagSourcesUpdate] is the prop, which a parent may leave out.  The
    result is the state of the parent and what went to [console.error]. *)
Definition onRagSourcesMessage {S : Type} (onRagSourcesUpdate : option (json -> S -> S))
    (parsed : outcome json) (st : S) : S * list exn :=
  match bind parsed rag_sources_update with
  | Return (Some sources) =>
      match onRagSourcesUpdate with
      | Some update => (update sources st, [])
      | None => (st, [])
      end
  | Return None => (st, [])
  | Throw e => (st, [e])
  end.

(** The handler as [App] wires it. *)
Definition App_onRagSourcesMessage (parsed : outcome json) (app : App) : App :=
  fst (onRagSourcesMessage (Some handleRagSourcesUpdate) parsed app).

(** *** The transcript view *)

Inductive Role : Type := agent | user.

Record Entry : Type := mkEntry {
  role : Role;
  text : utf16;
  id : string;
  isFinal : bool;
  timestamp : Z
}.

(** What [String.prototype.trim] strips, the white space and the line
    terminators of the language: U+0009 to U+000D, U+0020, U+00A0, U+1680,
    U+2000 to U+200A, U+2028, U+2029, U+202F, U+205F, U+3000 and U+FEFF. *)
Definition is_white_space (c : N) : bool :=
  ((9 <=? c) && (c <=? 13) || (c =? 32) || (c =? 160) || (c =? 5760)
   || (8192 <=? c) && (c <=? 8202) || (c =? 8232) || (c =? 8233)
   || (c =? 8239) || (c =? 8287) || (c =? 12288) || (c =? 65279))%N.

Fixpoint trim_start (cs : utf16) : utf16 :=
  match cs with
  | [] => []
  | c :: rest => if is_white_space c then trim_start rest else cs
  end.

Definition trim (t : utf16) : utf16 :=
  rev (trim_start (rev (trim_start t))).

(** [segment.text?.trim()] taken as a condition: a string is truthy unless
    it is empty. *)
Definition has_text (segment : Segment) : bool :=
  match seg_text segment with
  | Some t => match trim t with [] => false | _ :: _ => true end
  | None => false
  end.

Definition role_name (r : Role) : string :=
  match r with agent => "agent" | user => "user" end.

(** [segment.id || `${role}-${segment.firstReceivedTime}`] *)
Definition entry_id (r : Role) (segment : Segment) : string :=
  let fallback :=
    role_name r ++ "-" ++
    match firstReceivedTime segment with
    | Some t => string_of_Z t
    | None => "undefined"
    end in
  match seg_id segment with
  | Some i => if i =? "" then fallback else i
  | None => fallback
  end.

(** [segment.firstReceivedTime || 0] *)
Definition entry_timestamp (segment : Segment) : Z :=
  match firstReceivedTime segment with
  | Some t => if (t =? 0)%Z then 0%Z else t
  | None => 0%Z
  end.

Definition entry_of (r : Role) (segment : Segment) : Entry :=
  mkEntry r
    (match seg_text segment with Some t => t | None => [] end)
    (entry_id r segment)
    (seg_final segment)
    (entry_timestamp segment).

(** One [for ... of] loop: the segments with text are pushed in order. *)
Fixpoint push_segments (r : Role) (segments : list Segment) (allSegments : list Entry)
  : list Entry :=
  match segments with
  | [] => allSegments
  | segment :: rest =>
      push_segments r rest
        (if has_text segment
         then allSegments ++ [entry_of r segment]
         else allSegments)
  end.

(** [Array.prototype.sort] with a comparator: a stable sort.  An element is
    moved behind another one only where the comparator is positive. *)
Section Sort.

Context {A : Type}.
Variable compare : A -> A -> Z.

Fixpoint sort_insert (a : A) (sorted : list A) : list A :=
  match sorted with
  | [] => [a]
  | b :: rest =>
      if (compare a b <=? 0)%Z then a :: b :: rest
      else b :: sort_insert a rest
  end.

Fixpoint sort (l : list A) : list A :=
  match l with
  | [] => []
  | a :: rest => sort_insert a (sort rest)
  end.

End Sort.

(** [(a, b) => a.timestamp - b.timestamp] *)
Definition by_timestamp (a b : Entry) : Z := (timestamp a - timestamp b)%Z.

(** The array [allSegments] that [TranscriptView] renders. *)
Definition allSegments (transcriptData : option TranscriptData) : list Entry :=
  let pushed :=
    match transcriptData with
    | None => []
    | Some data =>
        push_segments user (user_segments data)
          (push_segments agent (agent_segments data) [])
    end in
  sort by_timestamp pushed.

(** The entries of one role before the sort, as a list comprehension. *)
Definition entries_of (r : Role) (segments : list Segment) : list Entry :=
  map (entry_of r) (filter has_text segments).

End Reconciler.

Import Reconciler.

(** ** [ConnectedMicPanel]: push to talk *)

Module PushToTalk.

(** [isPushToTalkActive] is React state of [VoiceAgent];
    [isMicrophoneEnabled] is the publishing state of the local
    participant. *)
Record Mic : Type := mkMic {
  isPushToTalkActive : bool;
  isMicrophoneEnabled : bool
}.

(** [await localParticipant.setMicrophoneEnabled(enabled, ...)]: [settled]
    is how the promise of the library settles; the publishing state follows
    the request when it resolves and stays as it was when it rejects. *)
Definition setMicrophoneEnabled (enabled : bool) (settled : outcome unit) (m : Mic)
  : Mic * outcome unit :=
  match settled with
  | Return _ => (mkMic (isPushToTalkActive m) enabled, Return tt)
  | Throw e => (m, Throw e)
  end.

Definition setIsPushToTalkActive (b : bool) (m : Mic) : Mic :=
  mkMic b (isMicrophoneEnabled m).

Definition startTalking (settled : outcome unit) (m : Mic) : Mic * outcome unit :=
  setMicrophoneEnabled true settled (setIsPushToTalkActive true m).

Definition stopTalking (settled : outcome unit) (m : Mic) : Mic * outcome unit :=
  setMicrophoneEnabled false settled (setIsPushToTalkActive false m).

(** [() => { stopTalking().catch(() => { }); }] *)
Definition handleRelease (settled : outcome unit) (m : Mic) : Mic :=
  fst (stopTalking settled m).

Inductive PointerEvent : Type :=
| ButtonPointerDown      (* [onPointerDown] of the button *)
| ButtonPointerUp        (* [onPointerUp], [onPointerCancel], [onPointerLeave] *)
| WindowRelease.         (* [pointerup], [pointercancel], [blur] on [window] *)

(** What an event does to the panel.  React drops the promise an event
    handler returns, and with it a rejection.  The listeners on [window]
    are registered only while [isPushToTalkActive] is set. *)
Definition onEvent (ev : PointerEvent) (settled : outcome unit) (m : Mic) : Mic :=
  match ev with
  | ButtonPointerDown => fst (startTalking settled m)
  | ButtonPointerUp => fst (stopTalking settled m)
  | WindowRelease =>
      if isPushToTalkActive m then handleRelease settled m else m
  end.

(** A sequence of pointer events, each with the way its microphone call
    settles. *)
Definition run_pointer (events : list (PointerEvent * outcome unit)) (m : Mic) : Mic :=
  fold_left (fun m ev => onEvent (fst ev) (snd ev) m) events m.

(** Every microphone call of the sequence succeeds. *)
Definition all_succeed (events : list PointerEvent) : list (PointerEvent * outcome unit) :=
  map (fun ev => (ev, Return tt)) events.

Definition Mic_initial : Mic := mkMic false false.

End PushToTalk.

Import PushToTalk.

(** ** [VoiceAgent]: connection, watchdog and retry *)

Module Connection.

(** [ConnectionState] of the media library, the states the client reads. *)
Inductive ConnectionState : Type :=
| Disconnected
| Connecting
| Connected
| Reconnecting.

Definition ConnectionState_eqb (a b : ConnectionState) : bool :=
  match a, b with
  | Disconnected, Disconnected
  | Connecting, Connecting
  | Connected, Connected
  | Reconnecting, Reconnecting => true
  | _, _ => false
  end.

(** The session object of [useSession]: the state and error it shows, and
    the calls of [start] and [end] it has received so far. *)
Record Session : Type := mkSession {
  connectionState : ConnectionState;
  error : option exn;
  startCalls : nat;
  endCalls : nat
}.

(** Modelled from the spec: [useSession] belongs to the media library, which
    is not part of the sources.  [start()] enters [Connecting]
    ([Disconnected --start()--> Connecting], a session that is active is
    ended first). *)
Definition session_start (s : Session) : Session :=
  mkSession Connecting (error s) (S (startCalls s)) (endCalls s).

(** Modelled from the spec: [useSession] belongs to the media library.
    [end()] yields [Disconnected] from every state, at once. *)
Definition session_end (s : Session) : Session :=
  mkSession Disconnected (error s) (startCalls s) (S (endCalls s)).

(** Modelled from the spec: [session.isConnected] is a field of the
    library's session; it is taken to hold in the state [Connected]. *)
Definition isConnected (s : Session) : bool :=
  ConnectionState_eqb (connectionState s) Connected.

(** [connectionState === Connecting || connectionState === Reconnecting] *)
Definition isConnecting (s : Session) : bool :=
  ConnectionState_eqb (connectionState s) Connecting
  || ConnectionState_eqb (connectionState s) Reconnecting.

(** The component [VoiceAgent] with the timers it has pending:
    [watchdog] is the 15000 ms timeout of the last effect, [backoff] holds
    the delays, in ms, of the timeouts [handleRetry] has set, oldest
    first. *)
Record VoiceAgent : Type := mkVoiceAgent {
  session : Session;
  sessionParams : option SessionParams;
  retryAttemptsRef : nat;
  watchdog : bool;
  backoff : list Z
}.

Definition maxRetries : nat := 2.

Definition with_session (s : Session) (c : VoiceAgent) : VoiceAgent :=
  mkVoiceAgent s (sessionParams c) (retryAttemptsRef c) (watchdog c) (backoff c).

(** The two effects of [VoiceAgent], run after a render in which the
    session has changed; [prev] is the connection state of the render
    before.  The first has [session.connectionState] as its dependency.  The
    second also depends on [handleRetry], which follows [session]: its
    cleanup clears the timeout of the run before, then a new one is set
    while the session is connecting. *)
Definition render (prev : ConnectionState) (c : VoiceAgent) : VoiceAgent :=
  let retryAttempts :=
    if negb (ConnectionState_eqb prev (connectionState (session c)))
       && isConnected (session c)
    then 0
    else retryAttemptsRef c in
  mkVoiceAgent (session c) (sessionParams c) retryAttempts
    (isConnecting (session c)) (backoff c).

(** A change of the session, followed by the render it causes. *)
Definition update_session (f : Session -> Session) (c : VoiceAgent) : VoiceAgent :=
  render (connectionState (session c)) (with_session (f (session c)) c).

(** The retry handler: two guards, then the counter, [session.end()] and
    [setTimeout(() => session.start(), 700 * retryAttemptsRef.current)]. *)
Definition handleRetry (c : VoiceAgent) : VoiceAgent :=
  if (maxRetries <=? retryAttemptsRef c)%nat then c
  else if negb (isConnecting (session c)) then c
  else
    let retryAttempts := retryAttemptsRef c + 1 in
    update_session session_end
      (mkVoiceAgent (session c) (sessionParams c) retryAttempts (watchdog c)
         (backoff c ++ [(700 * Z.of_nat retryAttempts)%Z])).

(** [ConnectionControls] *)
Definition handleConnect (c : VoiceAgent) : VoiceAgent :=
  update_session session_start c.

Definition handleDisconnect (c : VoiceAgent) : VoiceAgent :=
  update_session session_end c.

Inductive Timer : Type :=
| Watchdog     (* the timeout of the effect: [handleRetry()] *)
| Backoff.     (* the oldest timeout of [handleRetry]: [session.start()] *)

Inductive Event : Type :=
| StartCall                     (* click on "Start Call" *)
| EndCall                       (* click on "End Call" *)
| Fires (t : Timer)
| SessionChanged (state : ConnectionState) (err : option exn).
                                (* the library moves the session *)

(** A timer that is not pending does not fire. *)
Definition fire (t : Timer) (c : VoiceAgent) : VoiceAgent :=
  match t with
  | Watchdog =>
      if watchdog c
      then handleRetry
             (mkVoiceAgent (session c) (sessionParams c) (retryAttemptsRef c)
                false (backoff c))
      else c
  | Backoff =>
      match backoff c with
      | [] => c
      | _ :: rest =>
          update_session session_start
            (mkVoiceAgent (session c) (sessionParams c) (retryAttemptsRef c)
               (watchdog c) rest)
      end
  end.

Definition step (ev : Event) (c : VoiceAgent) : VoiceAgent :=
  match ev with
  | StartCall => handleConnect c
  | EndCall => handleDisconnect c
  | Fires t => fire t c
  | SessionChanged state err =>
      update_session
        (fun s => mkSession state err (startCalls s) (endCalls s)) c
  end.

Fixpoint run (events : list Event) (c : VoiceAgent) : VoiceAgent :=
  match events with
  | [] => c
  | ev :: rest => run rest (step ev c)
  end.

(** The component as it mounts. *)
Definition mount (randomUUID : option string) : VoiceAgent :=
  mkVoiceAgent (mkSession Disconnected None 0 0)
    (initSessionParams randomUUID) 0 false [].

(** What the buttons of [ConnectionControls] allow: "End Call" is rendered
    while the session is connected, "Start Call" otherwise and disabled
    while it is connecting. *)
Definition enabled (ev : Event) (c : VoiceAgent) : bool :=
  match ev with
  | StartCall => negb (isConnected (session c)) && negb (isConnecting (session c))
  | EndCall => isConnected (session c)
  | Fires Watchdog => watchdog c
  | Fires Backoff => match backoff c with [] => false | _ => true end
  | SessionChanged _ _ => true
  end.

(** Every event of the list is enabled where it happens. *)
Fixpoint feasible (events : list Event) (c : VoiceAgent) : bool :=
  match events with
  | [] => true
  | ev :: rest => enabled ev c && feasible rest (step ev c)
  end.

End Connection.

Import Connection.

(** ** [lib/api.js]: the other calls *)

Module ApiCalls.

(** [apiFetch(endpoint)]: the default [options = {}]. *)
Definition no_options : Options := mkOptions None None NoBody.

Section Calls.

Variable VITE_API_URL : option string.
Variable fetch : Request -> outcome Response.

Definition getPrompt : io json :=
  apiFetch VITE_API_URL fetch "/prompt" no_options.

Definition updatePrompt (systemPrompt : string) : io json :=
  apiFetch VITE_API_URL fetch "/prompt"
    (mkOptions (Some "PUT") None
       (JsonBody (JObject [("system_prompt", JString systemPrompt)]))).

(** [formData.append('file', file)]: the form holds the one file. *)
Definition uploadDocument (file : string) : io json :=
  apiFetch VITE_API_URL fetch "/documents/upload"
    (mkOptions (Some "POST") None (FormData file)).

Definition getDocuments : io json :=
  apiFetch VITE_API_URL fetch "/documents" no_options.

Definition deleteDocument (docId : string) : io json :=
  apiFetch VITE_API_URL fetch ("/documents/" ++ docId)
    (mkOptions (Some "DELETE") None NoBody).

End Calls.

End ApiCalls.

Import ApiCalls.

(** ** [AgentVisualizer]: the status line *)

Module Visualizer.







End Visualizer.

Import Visualizer.

(** ** [RagSources.jsx] *)

Module Sources.




Inductive FileIcon : Type := FileTextIcon | FileIcon_.

(** [getFileIcon]: [fileType] is [source.file_type]. *)
Definition getFileIcon (fileType : option json) : FileIcon :=
  match fileType with
  | Some (JString "pdf") => FileTextIcon
  | _ => FileIcon_
  end.

(** A run of messages on the data channel, each one as it parsed. *)
Definition run_messages (messages : list (outcome json)) (app : App) : App :=
  fold_left (fun app parsed => App_onRagSourcesMessage parsed app) messages app.

End Sources.

Import Sources.

(** ** [DocumentUpload.jsx] *)

Module Documents.

(** The component.  [error] holds the message of the exception kept here;
    [timers] counts the pending [setTimeout(() => setError(null), 5000)];
    [console] is what went to [console.error]. *)
Record DocumentUpload : Type := mkDocumentUpload {
  documents : json;
  uploading : bool;
  upload_error : option exn;
  dragActive : bool;
  deletingId : option string;
  timers : nat;
  console : list exn
}.

Definition DocumentUpload_initial : DocumentUpload :=
  mkDocumentUpload (JArray []) false None false None 0 [].

(** The calls of the API a handler makes, in order. *)
Inductive Call : Type :=
| UploadDocument (file : string)
| GetDocuments
| DeleteDocument (docId : string).

(** [loadDocuments]: [loaded] is how [await getDocuments()] settles. *)
Definition loadDocuments (loaded : outcome json) (st : DocumentUpload) : DocumentUpload :=
  match bind loaded (fun data => get data "documents") with
  | Return docs =>
      mkDocumentUpload (or_default docs (JArray [])) (uploading st) (upload_error st)
        (dragActive st) (deletingId st) (timers st) (console st)
  | Throw err =>
      mkDocumentUpload (documents st) (uploading st) (upload_error st)
        (dragActive st) (deletingId st) (timers st) (console st ++ [err])%list
  end.

(** The loop over the files: every file comes with the way its upload
    settles, which is looked at only if the loop gets there. *)
Fixpoint upload_each (files : list (string * outcome json)) : list Call * outcome unit :=
  match files with
  | [] => ([], Return tt)
  | (file, settled) :: rest =>
      match settled with
      | Throw err => ([UploadDocument file], Throw err)
      | Return _ =>
          let (calls, r) := upload_each rest in
          (UploadDocument file :: calls, r)
      end
  end.

(** [handleUpload(files)]; [files] is [None] for a missing list. *)
Definition handleUpload (files : option (list (string * outcome json)))
    (loaded : outcome json) (st : DocumentUpload) : DocumentUpload * list Call :=
  match files with
  | None => (st, [])
  | Some [] => (st, [])
  | Some files =>
      let (calls, r) := upload_each files in
      match r with
      | Return _ =>
          let st' := loadDocuments loaded
                       (mkDocumentUpload (documents st) true None (dragActive st)
                          (deletingId st) (timers st) (console st)) in
          (mkDocumentUpload (documents st') false (upload_error st') (dragActive st')
             (deletingId st') (timers st') (console st'),
           (calls ++ [GetDocuments])%list)
      | Throw err =>
          (mkDocumentUpload (documents st) false (Some err) (dragActive st)
             (deletingId st) (S (timers st)) (console st),
           calls)
      end
  end.

(** [d.doc_id !== docId] for a [docId] that is a string. *)
Definition other_id (docId : string) (doc_id : option json) : bool :=
  match doc_id with
  | Some (JString i) => negb (i =? docId)
  | _ => true
  end.

(** [prev.filter((d) => d.doc_id !== docId)] on an array. *)
Fixpoint filter_documents (docId : string) (items : list json) : outcome (list json) :=
  match items with
  | [] => Return []
  | d :: rest =>
      bind (get d "doc_id") (fun i =>
        bind (filter_documents docId rest) (fun kept =>
          Return (if other_id docId i then d :: kept else kept)))
  end.

(** The updater of [setDocuments]; a value that is not an array has no
    [filter]. *)
Definition without_document (docId : string) (prev : json) : outcome json :=
  match prev with
  | JArray items => bind (filter_documents docId items) (fun kept => Return (JArray kept))
  | _ => Throw TypeError
  end.

(** [handleDelete(docId)]; [deleted] is how [await deleteDocument(docId)]
    settles.  The updater runs when React renders, outside of the [try]:
    what it throws is thrown by the render. *)
Definition handleDelete (docId : string) (deleted : outcome json) (st : DocumentUpload)
  : outcome DocumentUpload :=
  match deleted with
  | Return _ =>
      bind (without_document docId (documents st)) (fun docs =>
        Return (mkDocumentUpload docs (uploading st) (upload_error st)
                  (dragActive st) None (timers st) (console st)))
  | Throw err =>
      Return (mkDocumentUpload (documents st) (uploading st) (Some err)
                (dragActive st) None (S (timers st)) (console st))
  end.

(** One of the timeouts fires: [setError(null)]. *)
Definition clear_error (st : DocumentUpload) : DocumentUpload :=
  match timers st with
  | 0 => st
  | S n =>
      mkDocumentUpload (documents st) (uploading st) None (dragActive st)
        (deletingId st) n (console st)
  end.

Definition handleDragOver (st : DocumentUpload) : DocumentUpload :=
  mkDocumentUpload (documents st) (uploading st) (upload_error st) true
    (deletingId st) (timers st) (console st).

Definition handleDragLeave (st : DocumentUpload) : DocumentUpload :=
  mkDocumentUpload (documents st) (uploading st) (upload_error st) false
    (deletingId st) (timers st) (console st).

Definition handleDrop (files : option (list (string * outcome json)))
    (loaded : outcome json) (st : DocumentUpload) : DocumentUpload * list Call :=
  handleUpload files loaded (handleDragLeave st).

(** [filename.split('.').pop()]: what follows the last dot, the whole name
    if there is none. *)
Fixpoint last_part (cs : list ascii) (part : list ascii) : list ascii :=
  match cs with
  | [] => part
  | c :: rest =>
      if Ascii.eqb c "."%char then last_part rest []
      else last_part rest (part ++ [c])%list
  end.

(** [toLowerCase] on a letter of the ASCII range. *)
Definition to_lower (c : ascii) : ascii :=
  let n := nat_of_ascii c in
  if (65 <=? n)%nat && (n <=? 90)%nat then ascii_of_nat (n + 32) else c.

Definition extension (filename : string) : string :=
  string_of_list_ascii (map to_lower (last_part (list_ascii_of_string filename) [])).

(** What [colors[ext] || default] evaluates to: a class name, or, for the
    two names in lower case that every object inherits, the inherited
    value. *)
Inductive IconClass : Type :=
| ClassName (name : string)
| Inherited (property : string).

Definition fileExtIcon (filename : string) : IconClass :=
  let ext := extension filename in
  if ext =? "pdf" then ClassName "text-red-400"
  else if ext =? "txt" then ClassName "text-blue-400"
  else if ext =? "md" then ClassName "text-green-400"
  else if ext =? "docx" then ClassName "text-indigo-400"
  else if (ext =? "constructor") || (ext =? "__proto__") then Inherited ext
  else ClassName "text-(--color-text-dim)".

End Documents.

Import Documents.

(** ** [PromptEditor.jsx] *)

Module Prompt.

Inductive Status : Type := success | failure.

(** The component; [system_prompt] of the response is taken to be a
    string.  [timers] counts the pending
    [setTimeout(() => setStatus(null), 3000)]. *)
Record PromptEditor : Type := mkPromptEditor {
  prompt : string;
  originalPrompt : string;
  loading : bool;
  saving : bool;
  save_status : option Status;
  status_timers : nat
}.

Definition PromptEditor_initial : PromptEditor :=
  mkPromptEditor "" "" true false None 0.

(** [loadPrompt]: [loaded] is [data.system_prompt] of [await getPrompt()]. *)
Definition loadPrompt (loaded : outcome string) (st : PromptEditor) : PromptEditor :=
  match loaded with
  | Return p => mkPromptEditor p p false (saving st) (save_status st) (status_timers st)
  | Throw _ =>
      mkPromptEditor (prompt st) (originalPrompt st) false (saving st)
        (Some failure) (status_timers st)
  end.

(** [handleSave]: [saved] is how [await updatePrompt(prompt)] settles. *)
Definition handleSave (saved : outcome json) (st : PromptEditor) : PromptEditor :=
  match saved with
  | Return _ =>
      mkPromptEditor (prompt st) (prompt st) (loading st) false (Some success)
        (S (status_timers st))
  | Throw _ =>
      mkPromptEditor (prompt st) (originalPrompt st) (loading st) false
        (Some failure) (status_timers st)
  end.

Definition handleReset (st : PromptEditor) : PromptEditor :=
  mkPromptEditor (originalPrompt st) (originalPrompt st) (loading st) (saving st)
    None (status_timers st).

(** [onChange] of the text area. *)
Definition setPrompt (text : string) (st : PromptEditor) : PromptEditor :=
  mkPromptEditor text (originalPrompt st) (loading st) (saving st) (save_status st)
    (status_timers st).

(** [prompt !== originalPrompt] *)
Definition hasChanges (st : PromptEditor) : bool :=
  negb (prompt st =? originalPrompt st).

Inductive Action : Type :=
| Edit (text : string)
| Save (saved : outcome json)
| Reset
| Load (loaded : outcome string).

Definition act (a : Action) (st : PromptEditor) : PromptEditor :=
  match a with
  | Edit text => setPrompt text st
  | Save saved => handleSave saved st
  | Reset => handleReset st
  | Load loaded => loadPrompt loaded st
  end.

Definition acts (actions : list Action) (st : PromptEditor) : PromptEditor :=
  fold_left (fun st a => act a st) actions st.

(** The text of the last save or load that succeeded among the actions,
    [text] if there is none: a save that succeeds sends the prompt of that
    moment, a load that succeeds brings the text it was answered with. *)
Fixpoint stored (actions : list Action) (st : PromptEditor) (text : string) : string :=
  match actions with
  | [] => text
  | a :: rest =>
      stored rest (act a st)
        match a with
        | Save (Return _) => prompt st
        | Load (Return p) => p
        | _ => text
        end
  end.

End Prompt.

Import Prompt.

(** ** The first version of [VoiceAgent] *)

Module FirstVersion.

Record VoiceAgent1 : Type := mkVoiceAgent1 {
  isConnected1 : bool;
  isConnecting1 : bool;
  token : option json;
  livekitUrl : option json;
  error1 : option exn
}.

Definition VoiceAgent1_initial : VoiceAgent1 :=
  mkVoiceAgent1 false false (Some JNull) (Some JNull) None.

Section Connect.

Variable VITE_API_URL : option string.
Variable fetch : Request -> outcome Response.

(** [handleConnect]; [now] is [Date.now()].  The result is the state when
    the handler is done and the requests it sent. *)
Definition handleConnect1 (now : Z) (st : VoiceAgent1) : VoiceAgent1 * list Request :=
  let call := getToken VITE_API_URL fetch
                [Some "voice-agent-room"; Some ("user-" ++ string_of_Z now)] in
  (match bind (result call) (fun data =>
           bind (get data "token") (fun t =>
             bind (get data "livekit_url") (fun u => Return (t, u)))) with
   | Return (t, u) => mkVoiceAgent1 true false t u None
   | Throw err => mkVoiceAgent1 (isConnected1 st) false (token st) (livekitUrl st) (Some err)
   end,
   requests call).

End Connect.

Definition handleDisconnect1 (st : VoiceAgent1) : VoiceAgent1 :=
  mkVoiceAgent1 false (isConnecting1 st) (Some JNull) (Some JNull) (error1 st).

(** [isConnected && token && livekitUrl]: the room is rendered. *)
Definition room_rendered (st : VoiceAgent1) : bool :=
  isConnected1 st && truthy_opt (token st) && truthy_opt (livekitUrl st).

End FirstVersion.

Import FirstVersion.

(** ** Notions used to state properties *)

Module Notions.

Definition Role_eqb (a b : Role) : bool :=
  match a, b with
  | agent, agent | user, user => true
  | _, _ => false
  end.

(** The entries of one role. *)
Definition of_role (r : Role) (entries : list Entry) : list Entry :=
  filter (fun e => Role_eqb (role e) r) entries.

(** The segments of one role in the data handed to the view. *)
Definition segments_of (r : Role) (data : TranscriptData) : list Segment :=
  match r with
  | agent => agent_segments data
  | user => user_segments data
  end.


Definition is_array (v : json) : bool :=
  match v with JArray _ => true | _ => false end.


(** The event is not the session becoming connected. *)
Definition not_connecting_event (ev : Event) : bool :=
  match ev with
  | SessionChanged Connected _ => false
  | _ => true
  end.

(** The event is a timer firing or a move of the library to a state other
    than [Connected]. *)
Definition timer_or_library (ev : Event) : bool :=
  match ev with
  | Fires _ => true
  | SessionChanged Connected _ => false
  | SessionChanged _ _ => true
  | _ => false
  end.

(** The clicks on "Start Call" among the events. *)
Definition user_starts (events : list Event) : nat :=
  List.length (filter (fun ev => match ev with StartCall => true | _ => false end) events).

(** The upload of the file succeeds. *)
Definition uploads (file : string * outcome json) : bool :=
  match snd file with
  | Return _ => true
  | Throw _ => false
  end.

(** [d.doc_id] of a document that is not [null]. *)
Definition doc_id_of (d : json) : option json :=
  match get d "doc_id" with
  | Return i => i
  | Throw _ => None
  end.



Definition lowercase (s : string) : string :=
  string_of_list_ascii (map to_lower (list_ascii_of_string s)).

Definition dotless (s : string) : bool :=
  forallb (fun c => negb (Ascii.eqb c "."%char)) (list_ascii_of_string s).

(** A state in which the budget is spent and no restart is pending. *)
Definition spent (c : VoiceAgent) : Prop :=
  retryAttemptsRef c = maxRetries /\ backoff c = []%list.

End Notions.

Import Notions.

(** ** The words of the specification *)

Module Spec.

(** The code units that count as white space when a text is trimmed. *)
Definition white_space : list N :=
  [9; 10; 11; 12; 13; 32; 160; 5760;
   8192; 8193; 8194; 8195; 8196; 8197; 8198; 8199; 8200; 8201; 8202;
   8232; 8233; 8239; 8287; 12288; 65279]%N.

(** The trimmed text is not empty: the text has a code unit that is not
    white space. *)
Definition visible (t : utf16) : Prop :=
  exists c, In c t /\ ~ In c white_space.

(** A citation message as the specification describes it: the payload
    parses, [type] is "rag_sources" and [sources] is an array that is not
    empty. *)
Definition valid_citation_message (parsed : outcome json) (items : list json) : Prop :=
  exists data,
    parsed = Return data
    /\ get data "type" = Return (Some (JString "rag_sources"))
    /\ get data "sources" = Return (Some (JArray items))
    /\ items <> [].

(** A citation message as the handler takes it: the payload parses, [type]
    is "rag_sources" and [sources] is truthy. *)
Definition accepted_sources (parsed : outcome json) (v : json) : Prop :=
  exists data,
    parsed = Return data
    /\ get data "type" = Return (Some (JString "rag_sources"))
    /\ get data "sources" = Return (Some v)
    /\ truthy v = true.

(** The names under which the response may carry the two connection
    fields. *)
Definition token_aliases : list string :=
  ["participant_token"; "accessToken"; "token"].

Definition url_aliases : list string := ["server_url"; "livekit_url"].

(** The response has the field [k], and its value is not empty. *)
Definition present (data : json) (k : string) : bool :=
  match get data k with
  | Return (Some v) => truthy v
  | _ => false
  end.

(** The value of the first alias under which the field is present. *)
Fixpoint first_present (data : json) (aliases : list string) : option json :=
  match aliases with
  | [] => None
  | k :: rest =>
      if present data k
      then match get data k with Return v => v | Throw _ => None end
      else first_present data rest
  end.

(** The state [Failed] of the specification, in the terms of the client:
    the session is neither connected nor connecting any more, and it shows
    an error. *)
Definition failed (c : VoiceAgent) : Prop :=
  isConnecting (session c) = false /\ isConnected (session c) = false
  /\ error (session c) <> None.

(** Three connection attempts, then [Failed] with the error. *)
Definition three_attempts_then_failed (c : VoiceAgent) : Prop :=
  startCalls (session c) = 3 /\ failed c.

End Spec.

Import Spec.

(** ** Invariants *)

Module Invariant.

(** What the timers alone keep true once a call has been started: the
    session is never connected, and every start still to come is paid for
    by a pending restart or by a retry that is left. *)
Definition attempts_accounted (c : VoiceAgent) : Prop :=
  connectionState (session c) <> Connected
  /\ retryAttemptsRef c <= maxRetries
  /\ startCalls (session c) + List.length (backoff c)
     + (maxRetries - retryAttemptsRef c) = 1 + maxRetries.

End Invariant.

Import Invariant.

(** ** Sample inputs *)

Module Sample.

Definition segment_without_time : Segment :=
  mkSegment (Some (units "hello")) (Some "a1") true None.

Definition segment_at_100 : Segment :=
  mkSegment (Some (units "hi there")) (Some "u1") true (Some 100%Z).

(** The updates [(user, u1, t=100)], [(agent, a1, t=50)] and a second user
    segment that arrived at the time of the first. *)
Definition segment_a1 : Segment :=
  mkSegment (Some (units "Hello, how can I help?")) (Some "a1") true (Some 50%Z).

Definition segment_u1 : Segment :=
  mkSegment (Some (units "What is in the report")) (Some "u1") true (Some 100%Z).

Definition segment_u2 : Segment :=
  mkSegment (Some (units " and who wrote it? ")) None false (Some 100%Z).

(** A text of a blank, a no-break space and an ideographic space. *)
Definition segment_of_blanks : Segment :=
  mkSegment (Some [32; 160; 12288]%N) (Some "a2") true (Some 60%Z).

Definition segment_without_text : Segment :=
  mkSegment None None false None.

Definition citation (content : string) : json :=
  JObject [("content", JString content)].

(** [{"type":"rag_sources","sources":[{"content":"A"},{"content":"B"}]}] *)
Definition two_sources_message : outcome json :=
  Return (JObject [("type", JString "rag_sources");
                   ("sources", JArray [citation "A"; citation "B"])]).

(** [{"type":"other"}] *)
Definition other_message : outcome json :=
  Return (JObject [("type", JString "other")]).

(** [{"type":"rag_sources","sources":[]}] *)
Definition empty_sources_message : outcome json :=
  Return (JObject [("type", JString "rag_sources"); ("sources", JArray [])]).

Definition App_with_two_sources : App :=
  mkApp None (JArray [citation "A"; citation "B"]).

Definition sample_params : SessionParams :=
  mkSessionParams "voice-demo-r1" "user-r1".

(** [{"participant_token":"t1","server_url":"wss://x"}] *)
Definition sample_token_response : json :=
  JObject [("participant_token", JString "t1"); ("server_url", JString "wss://x")].

Definition sample_fetch (_ : Request) : outcome Response :=
  Return (mkResponse true 200 (Return sample_token_response)).

(** The endpoint answers 200 with the body [null]. *)
Definition null_fetch (_ : Request) : outcome Response :=
  Return (mkResponse true 200 (Return JNull)).

(** [{"token":"t1","livekit_url":""}] *)
Definition empty_url_response : json :=
  JObject [("token", JString "t1"); ("livekit_url", JString "")].

Definition empty_url_fetch (_ : Request) : outcome Response :=
  Return (mkResponse true 200 (Return empty_url_response)).

Definition sample_uuid : string := "3b241101-e2bb-4255-8caf-4136c566a962".

(** Connection attempts that end in the watchdog: nothing joins, the
    timeout fires, and the retry it has scheduled starts the next
    attempt. *)
Definition timed_out_attempts : list Event :=
  [StartCall; Fires Watchdog; Fires Backoff; Fires Watchdog; Fires Backoff;
   Fires Watchdog].

(** The library reports the failure of the token source at once and goes
    back to [Disconnected]. *)
Definition rejected_attempt : list Event :=
  [StartCall; SessionChanged Disconnected (Some initialization_in_progress)].

(** The first attempt times out; the user starts a call by hand while the
    retry is waiting, the call connects, the user ends it. *)
Definition call_ended_during_backoff : list Event :=
  [StartCall; Fires Watchdog; StartCall; SessionChanged Connected None; EndCall].

(** The browser refuses the microphone. *)
Definition permission_denied : exn := Error "Permission denied".



Definition document (docId filename : string) : json :=
  JObject [("doc_id", JString docId); ("filename", JString filename)].

Definition three_documents : DocumentUpload :=
  mkDocumentUpload
    (JArray [document "d1" "a.pdf"; document "d2" "b.txt"; document "d3" "c.md"])
    false None false None 0 [].

End Sample.

Import Sample.

(** * Properties *)

Local Open Scope list_scope.

(** ** The merged transcript *)

Section SortFacts.

Context {A : Type}.
Variable key : A -> Z.

Let by_key (a b : A) : Z := (key a - key b)%Z.
Let key_le (a b : A) : Prop := (key a <= key b)%Z.

Lemma sort_insert_perm (a : A) (l : list A) :
  Permutation (sort_insert by_key a l) (a :: l).
Proof.
  induction l as [|b l IH]; simpl.
  - apply Permutation_refl.
  - destruct (by_key a b <=? 0)%Z.
    + apply Permutation_refl.
    + eapply perm_trans; [apply perm_skip, IH | apply perm_swap].
Qed.

Lemma sort_perm (l : list A) : Permutation (sort by_key l) l.
Proof.
  induction l as [|a l IH]; simpl.
  - apply perm_nil.
  - eapply perm_trans; [apply sort_insert_perm | apply perm_skip, IH].
Qed.

Lemma sort_insert_sorted (a : A) (l : list A) :
  StronglySorted key_le l -> StronglySorted key_le (sort_insert by_key a l).
Proof.
  induction 1 as [|b l Hl IH Hb]; simpl.
  - repeat constructor.
  - destruct (by_key a b <=? 0)%Z eqn:E.
    + apply Z.leb_le in E. unfold by_key in E.
      constructor; [constructor; assumption|].
      constructor; [unfold key_le; lia|].
      eapply Forall_impl; [|exact Hb].
      unfold key_le. intros c Hc. lia.
    + apply Z.leb_gt in E. unfold by_key in E.
      constructor; [exact IH|].
      eapply Permutation_Forall.
      * apply Permutation_sym, sort_insert_perm.
      * constructor; [unfold key_le; lia | exact Hb].
Qed.

Lemma sort_sorted (l : list A) : StronglySorted key_le (sort by_key l).
Proof.
  induction l as [|a l IH]; simpl.
  - constructor.
  - apply sort_insert_sorted, IH.
Qed.



End SortFacts.

Lemma push_segments_app (r : Role) (segments : list Segment) (acc : list Entry) :
  push_segments r segments acc = acc ++ entries_of r segments.
Proof.
  revert acc. unfold entries_of.
  induction segments as [|s segments IH]; intros acc; simpl.
  - now rewrite app_nil_r.
  - rewrite IH. destruct (has_text s); simpl.
    + now rewrite <- app_assoc.
    + reflexivity.
Qed.

Lemma allSegments_unfold (ag us : list Segment) :
  allSegments (Some (mkTranscriptData ag us))
  = sort by_timestamp (entries_of agent ag ++ entries_of user us).
Proof.
  unfold allSegments. simpl. now rewrite !push_segments_app.
Qed.

Lemma is_white_space_table (c : N) :
  is_white_space c = true <-> In c white_space.
Proof.
  unfold is_white_space, white_space. cbn [In].
  rewrite !Bool.orb_true_iff, !Bool.andb_true_iff, !N.leb_le, !N.eqb_eq.
  lia.
Qed.

Lemma trim_start_keeps_forallb (l : utf16) :
  forallb is_white_space (trim_start l) = forallb is_white_space l.
Proof.
  induction l as [|c l IH]; simpl; [reflexivity|].
  destruct (is_white_space c) eqn:E; simpl.
  - exact IH.
  - now rewrite E.
Qed.

Lemma trim_start_nil (l : utf16) :
  trim_start l = [] <-> forallb is_white_space l = true.
Proof.
  induction l as [|c l IH]; simpl.
  - split; reflexivity.
  - destruct (is_white_space c); simpl; [exact IH|].
    split; discriminate.
Qed.

Lemma forallb_rev {A : Type} (f : A -> bool) (l : list A) :
  forallb f (rev l) = forallb f l.
Proof.
  induction l as [|a l IH]; simpl; [reflexivity|].
  rewrite forallb_app, IH. simpl. rewrite Bool.andb_true_r.
  apply Bool.andb_comm.
Qed.

(** Trimming leaves nothing exactly of a text that is all white space. *)
Lemma trim_nil_iff (t : utf16) :
  trim t = [] <-> forallb is_white_space t = true.
Proof.
  unfold trim.
  rewrite <- (trim_start_keeps_forallb t), <- forallb_rev, <- trim_start_nil.
  destruct (trim_start (rev (trim_start t))) as [|c r] eqn:E.
  - split; reflexivity.
  - split; [|discriminate]. simpl. intros H.
    now apply app_eq_nil in H.
Qed.

Lemma all_white_space_iff (t : utf16) :
  forallb is_white_space t = true <-> ~ visible t.
Proof.
  unfold visible. rewrite forallb_forall. split.
  - intros H [c [Hin Hc]]. apply Hc, is_white_space_table. now apply H.
  - intros H c Hin. destruct (is_white_space c) eqn:E; [reflexivity|].
    exfalso. apply H. exists c. split; [exact Hin|].
    rewrite <- is_white_space_table. congruence.
Qed.

Lemma some_visible (t : utf16) :
  forallb is_white_space t = false -> visible t.
Proof.
  unfold visible. induction t as [|x t IH]; cbn [forallb]; [discriminate|].
  destruct (is_white_space x) eqn:X; cbn [andb].
  - intros F. destruct (IH F) as [c [Hin Hc]]. exists c. split; [now right | exact Hc].
  - intros _. exists x. split; [now left|].
    rewrite <- is_white_space_table. congruence.
Qed.

Lemma has_text_visible (s : Segment) :
  has_text s = true <-> exists t, seg_text s = Some t /\ visible t.
Proof.
  unfold has_text. destruct (seg_text s) as [t|].
  - destruct (trim t) as [|c r] eqn:E.
    + split; [discriminate|]. intros [t' [Et V]]. inversion Et; subst t'.
      apply trim_nil_iff, all_white_space_iff in E. contradiction.
    + split; [|reflexivity]. intros _. exists t. split; [reflexivity|].
      apply some_visible.
      destruct (forallb is_white_space t) eqn:F; [|reflexivity].
      apply trim_nil_iff in F. rewrite F in E. discriminate.
  - split; [discriminate | intros [t [E _]]; discriminate].
Qed.

Lemma allSegments_perm (ag us : list Segment) :
  Permutation (allSegments (Some (mkTranscriptData ag us)))
    (entries_of agent ag ++ entries_of user us).
Proof.
  rewrite allSegments_unfold. apply (sort_perm timestamp).
Qed.

Lemma entries_of_In (r : Role) (segments : list Segment) (e : Entry) :
  In e (entries_of r segments) <->
  exists s, In s segments /\ has_text s = true /\ e = entry_of r s.
Proof.
  unfold entries_of. rewrite in_map_iff. split.
  - intros [s [E H]]. apply filter_In in H. destruct H as [Hs Ht].
    exists s. auto.
  - intros [s [Hs [Ht E]]]. exists s. split; [now symmetry|].
    apply filter_In. auto.
Qed.

Lemma allSegments_In (ag us : list Segment) (e : Entry) :
  In e (allSegments (Some (mkTranscriptData ag us))) <->
  exists r s, In s (match r with agent => ag | user => us end)
              /\ has_text s = true /\ e = entry_of r s.
Proof.
  split.
  - intros H. apply (Permutation_in _ (allSegments_perm ag us)) in H.
    apply in_app_or in H.
    destruct H as [H|H]; apply entries_of_In in H; destruct H as [s H];
      [exists agent, s | exists user, s]; exact H.
  - intros [r [s H]].
    apply (Permutation_in _ (Permutation_sym (allSegments_perm ag us))).
    apply in_or_app.
    destruct r; [left | right]; apply entries_of_In; exists s; exact H.
Qed.

Lemma allSegments_sorted (ag us : list Segment) :
  StronglySorted (fun a b => (timestamp a <= timestamp b)%Z)
    (allSegments (Some (mkTranscriptData ag us))).
Proof.
  rewrite allSegments_unfold. apply (sort_sorted timestamp).
Qed.






Lemma sorted_tail_above (l1 : list Entry) (x : Entry) (l2 : list Entry) :
  StronglySorted (fun a b => (timestamp a <= timestamp b)%Z) (l1 ++ x :: l2) ->
  Forall (fun y => (timestamp x <= timestamp y)%Z) l2.
Proof.
  induction l1 as [|a l1 IH]; simpl; intros H; inversion H; subst.
  - assumption.
  - now apply IH.
Qed.

(** C10: a segment whose [firstReceivedTime] is missing or falsy gets the
    timestamp 0.  If it is shown, then for every segment shown with a
    positive [firstReceivedTime], which is kept as the timestamp of its
    entry, both entries are in the merged view, and the entry without a
    time stands before each occurrence of the other one and never behind
    it. *)
Theorem missing_timestamp_sorts_first (ag us : list Segment) (r : Role) (s : Segment) :
  firstReceivedTime s = None \/ firstReceivedTime s = Some 0%Z ->
  timestamp (entry_of r s) = 0%Z
  /\ (In s (match r with agent => ag | user => us end) ->
      (exists t, seg_text s = Some t /\ visible t) ->
      forall r' s' time,
        In s' (match r' with agent => ag | user => us end) ->
        (exists t, seg_text s' = Some t /\ visible t) ->
        firstReceivedTime s' = Some time -> (0 < time)%Z ->
        let merged := allSegments (Some (mkTranscriptData ag us)) in
        timestamp (entry_of r' s') = time
        /\ (exists l1 l2 l3,
              merged = l1 ++ entry_of r s :: l2 ++ entry_of r' s' :: l3)
        /\ (forall before behind,
              merged = before ++ entry_of r' s' :: behind ->
              In (entry_of r s) before /\ ~ In (entry_of r s) behind)).
Proof.
  intros Hfalsy.
  assert (T0 : timestamp (entry_of r s) = 0%Z).
  { simpl. unfold entry_timestamp. destruct Hfalsy as [-> | ->]; reflexivity. }
  split; [exact T0|].
  intros Hin Htext r' s' time Hin' Htext' Htime Hpos merged.
  assert (T1 : timestamp (entry_of r' s') = time).
  { simpl. unfold entry_timestamp. rewrite Htime.
    destruct (Z.eqb_spec time 0); [lia | reflexivity]. }
  assert (M0 : In (entry_of r s) merged).
  { apply allSegments_In. exists r, s.
    split; [exact Hin | split; [now apply has_text_visible | reflexivity]]. }
  assert (M1 : In (entry_of r' s') merged).
  { apply allSegments_In. exists r', s'.
    split; [exact Hin' | split; [now apply has_text_visible | reflexivity]]. }
  assert (Before : forall before behind,
             merged = before ++ entry_of r' s' :: behind ->
             In (entry_of r s) before /\ ~ In (entry_of r s) behind).
  { intros before behind E.
    pose proof (allSegments_sorted ag us) as Hsorted.
    fold merged in Hsorted. rewrite E in Hsorted.
    assert (Hnot : ~ In (entry_of r s) behind).
    { intros H2. pose proof (sorted_tail_above _ _ _ Hsorted) as Hall.
      rewrite Forall_forall in Hall. specialize (Hall _ H2). lia. }
    split; [|exact Hnot].
    rewrite E in M0. apply in_app_or in M0. destruct M0 as [M0 | [M0 | M0]].
    - exact M0.
    - exfalso. rewrite <- M0 in T0. lia.
    - contradiction. }
  split; [exact T1|]. split; [|exact Before].
  destruct (in_split _ _ M1) as [before [behind E]].
  destruct (Before before behind E) as [H0 _].
  destruct (in_split _ _ H0) as [l1 [l2 E0]].
  exists l1, l2, behind. rewrite E, E0, <- app_assoc. reflexivity.
Qed.

Lemma missing_timestamp_sorts_first_witness :
  timestamp (entry_of user segment_without_time) = 0%Z
  /\ timestamp (entry_of agent segment_at_100) = 100%Z
  /\ (exists l1 l2 l3,
        allSegments (Some (mkTranscriptData [segment_at_100] [segment_without_time]))
        = l1 ++ entry_of user segment_without_time
             :: l2 ++ entry_of agent segment_at_100 :: l3)
  /\ In (entry_of user segment_without_time) [entry_of user segment_without_time].
Proof.
  destruct (missing_timestamp_sorts_first
              [segment_at_100] [segment_without_time] user segment_without_time
              (or_introl eq_refl)) as [T0 H].
  split; [exact T0|].
  assert (V : forall x t (c : N),
             seg_text x = Some t -> In c t -> is_white_space c = false ->
             exists t', seg_text x = Some t' /\ visible t').
  { intros x t c Et Hin Hc. exists t. split; [exact Et|]. exists c.
    split; [exact Hin|]. intros Hw. apply is_white_space_table in Hw. congruence. }
  destruct (H (or_introl eq_refl)
              (V segment_without_time (units "hello") 104%N eq_refl
                 (or_introl eq_refl) eq_refl)
              agent segment_at_100 100%Z (or_introl eq_refl)
              (V segment_at_100 (units "hi there") 104%N eq_refl
                 (or_introl eq_refl) eq_refl)
              eq_refl eq_refl) as (T1 & Hex & Hbefore).
  split; [exact T1|]. split; [exact Hex|].
  apply (Hbefore [entry_of user segment_without_time] []). reflexivity.
Defined.

(** ** Retrieval citations *)

Lemma rag_sources_update_cases (data : json) :
  match rag_sources_update data with
  | Return (Some v) =>
      get data "type" = Return (Some (JString "rag_sources"))
      /\ get data "sources" = Return (Some v)
      /\ truthy v = true
  | _ =>
      forall v,
        ~ (get data "type" = Return (Some (JString "rag_sources"))
           /\ get data "sources" = Return (Some v)
           /\ truthy v = true)
  end.
Proof.
  unfold rag_sources_update.
  destruct (get data "type") as [ty|e]; simpl.
  2: { intros v [H _]; discriminate. }
  destruct ty as [ty|]; simpl.
  2: { intros v [H _]; discriminate. }
  destruct ty as [ | b | n | s | items | fields ]; simpl;
    try (intros v [H _]; discriminate).
  destruct (String.eqb_spec s "rag_sources") as [-> | Hs].
  2: { intros v [H _]. inversion H. contradiction. }
  destruct (get data "sources") as [[v|]|e]; simpl.
  - destruct (truthy v) eqn:Tv.
    + repeat split; assumption.
    + intros w [_ [H Hw]]. inversion H; subst. congruence.
  - intros w [_ [H _]]. discriminate.
  - intros w [_ [H _]]. discriminate.
Qed.

(** C3, as the code has it: a message on "rag-sources" replaces the
    citations, wholesale and in the order given, by the [sources] of the
    message if the payload parses as JSON whose [type] is "rag_sources" and
    whose [sources] is truthy, which every array is, the empty one too; in
    every other case the state of the application stays as it was.  A
    message that is valid in the sense of the specification is accepted. *)
Theorem citations_replaced_iff_accepted (parsed : outcome json) (app : App) :
  (forall v, accepted_sources parsed v ->
     App_onRagSourcesMessage parsed app = mkApp (transcriptData app) v)
  /\ ((forall v, ~ accepted_sources parsed v) ->
      App_onRagSourcesMessage parsed app = app)
  /\ (forall items, valid_citation_message parsed items ->
       accepted_sources parsed (JArray items)).
Proof.
  split; [|split].
  - intros v [data [-> [Hty [Hsrc Hv]]]].
    unfold App_onRagSourcesMessage, onRagSourcesMessage. simpl.
    pose proof (rag_sources_update_cases data) as H.
    destruct (rag_sources_update data) as [[w|]|e].
    + destruct H as [_ [Hw _]]. rewrite Hsrc in Hw. inversion Hw; subst.
      reflexivity.
    + exfalso. apply (H v). auto.
    + exfalso. apply (H v). auto.
  - intros Hnone.
    unfold App_onRagSourcesMessage, onRagSourcesMessage.
    destruct parsed as [data|e]; simpl; [|reflexivity].
    pose proof (rag_sources_update_cases data) as H.
    destruct (rag_sources_update data) as [[w|]|e]; try reflexivity.
    exfalso. apply (Hnone w). exists data. auto.
  - intros items [data [-> [Hty [Hsrc _]]]]. exists data. auto.
Qed.

Lemma citations_replaced_iff_accepted_witness :
  App_onRagSourcesMessage two_sources_message App_initial
  = mkApp None (JArray [citation "A"; citation "B"])
  /\ App_onRagSourcesMessage other_message App_with_two_sources
     = App_with_two_sources.
Proof.
  split.
  - apply (proj1 (citations_replaced_iff_accepted two_sources_message App_initial)).
    eexists. repeat split; reflexivity.
  - apply (proj1 (proj2 (citations_replaced_iff_accepted other_message
                           App_with_two_sources))).
    intros v [data [E [Hty _]]]. inversion E; subst. discriminate.
Defined.

(** C3, as the specification has it, fails on a message whose [sources] is
    the empty array: the message is not a valid citation message, and yet
    the two citations shown before are replaced by none. *)
Lemma empty_sources_clear_citations :
  (forall items, ~ valid_citation_message empty_sources_message items)
  /\ App_onRagSourcesMessage empty_sources_message App_with_two_sources
     = mkApp None (JArray [])
  /\ App_onRagSourcesMessage empty_sources_message App_with_two_sources
     <> App_with_two_sources.
Proof.
  split; [|split].
  - intros items [data [E [_ [Hsrc Hne]]]]. inversion E; subst.
    simpl in Hsrc. inversion Hsrc; subst. now apply Hne.
  - reflexivity.
  - discriminate.
Qed.

(** ** The credential fetch *)

Lemma first_present_truthy (data : json) (aliases : list string) (v : json) :
  first_present data aliases = Some v ->
  truthy v = true /\ exists k, In k aliases /\ get data k = Return (Some v).
Proof.
  induction aliases as [|k rest IH]; simpl; [discriminate|].
  unfold present at 1.
  destruct (get data k) as [[w|]|e] eqn:G.
  - destruct (truthy w) eqn:Tw.
    + intros H. inversion H; subst. split; [exact Tw|]. exists k. auto.
    + intros H. destruct (IH H) as [T [k' [Hin Hk]]]. split; [exact T|].
      exists k'. auto.
  - intros H. destruct (IH H) as [T [k' [Hin Hk]]]. split; [exact T|].
    exists k'. auto.
  - intros H. destruct (IH H) as [T [k' [Hin Hk]]]. split; [exact T|].
    exists k'. auto.
Qed.

Lemma first_present_none (data : json) (aliases : list string) :
  first_present data aliases = None <->
  forall k, In k aliases -> present data k = false.
Proof.
  induction aliases as [|k rest IH]; simpl.
  - split; [intros _ k [] | reflexivity].
  - destruct (present data k) eqn:P.
    + split.
      * unfold present in P. destruct (get data k) as [[w|]|e]; try discriminate.
      * intros H. rewrite (H k) in P; [discriminate | now left].
    + rewrite IH. split.
      * intros H k' [<- | Hin]; [exact P | now apply H].
      * intros H k' Hin. apply H. now right.
Qed.

Lemma credentials_of_cases (data : json) :
  data <> JNull ->
  credentials_of data
  = match first_present data token_aliases, first_present data url_aliases with
    | Some t, Some u => Return (mkCredentials t u)
    | _, _ => Throw missing_connection_fields
    end.
Proof.
  intros Hnull.
  destruct data as [ | b | n | s | items | fields ];
    try contradiction; try reflexivity.
  unfold credentials_of, token_aliases, url_aliases, first_present, present,
    or_lazy, truthy_opt, get, bind.
  destruct (lookup "participant_token" fields) as [a|];
    [destruct (truthy a) eqn:Ta|];
    (destruct (lookup "accessToken" fields) as [b|];
       [destruct (truthy b) eqn:Tb|]);
    (destruct (lookup "token" fields) as [c|];
       [destruct (truthy c) eqn:Tc|]);
    (destruct (lookup "server_url" fields) as [d|];
       [destruct (truthy d) eqn:Td|]);
    (destruct (lookup "livekit_url" fields) as [e|];
       [destruct (truthy e) eqn:Te|]);
    simpl; rewrite ?Ta, ?Tb, ?Tc, ?Td, ?Te; reflexivity.
Qed.

(** C5, as the code has it: when the provider answers with [data] that is
    not [null], the credential fetch returns the pair of the first token
    alias and the first server URL alias that are present with a value that
    is not empty, both of them truthy, and it fails with the error of the
    missing connection fields exactly when the token or the URL is absent
    or empty under all of its aliases.  When the answer is [null], reading
    the first field throws a type error. *)
Theorem credentials_iff_fields_present
    (url : option string) (fetch : Request -> outcome Response)
    (p : SessionParams) (options : option TokenOptions) (data : json) :
  result (getToken url fetch
            [Some (roomName p); Some (participantName p);
             Some (agentName_or_default options)]) = Return data ->
  let fetched := result (tokenSource url fetch (Some p) options) in
  (data = JNull -> fetched = Throw TypeError)
  /\ (data <> JNull ->
      ((exists k, In k token_aliases /\ present data k = true)
       /\ (exists k, In k url_aliases /\ present data k = true) ->
       exists t u,
         fetched = Return (mkCredentials t u)
         /\ first_present data token_aliases = Some t
         /\ first_present data url_aliases = Some u
         /\ truthy t = true /\ truthy u = true)
      /\ (fetched = Throw missing_connection_fields <->
          (forall k, In k token_aliases -> present data k = false)
          \/ (forall k, In k url_aliases -> present data k = false))).
Proof.
  intros Hdata fetched. split.
  { intros ->. subst fetched. unfold tokenSource. cbv zeta. unfold result at 1.
    cbn [snd]. rewrite Hdata. reflexivity. }
  intros Hnull.
  assert (E : fetched
              = match first_present data token_aliases,
                      first_present data url_aliases with
                | Some t, Some u => Return (mkCredentials t u)
                | _, _ => Throw missing_connection_fields
                end).
  { subst fetched. unfold tokenSource. cbv zeta. unfold result at 1.
    cbn [snd]. rewrite Hdata. cbn [bind].
    now apply credentials_of_cases. }
  rewrite E. clear E.
  rewrite <- !first_present_none.
  destruct (first_present data token_aliases) as [t|] eqn:Ft;
    destruct (first_present data url_aliases) as [u|] eqn:Fu.
  - split.
    + intros _. exists t, u.
      destruct (first_present_truthy _ _ _ Ft) as [Tt _].
      destruct (first_present_truthy _ _ _ Fu) as [Tu _]. auto.
    + split; [discriminate | intros [H|H]; discriminate].
  - split.
    + intros [_ [k [Hin Hk]]]. exfalso.
      pose proof (proj1 (first_present_none data url_aliases) Fu k Hin).
      congruence.
    + split; auto.
  - split.
    + intros [[k [Hin Hk]] _]. exfalso.
      pose proof (proj1 (first_present_none data token_aliases) Ft k Hin).
      congruence.
    + split; auto.
  - split.
    + intros [[k [Hin Hk]] _]. exfalso.
      pose proof (proj1 (first_present_none data token_aliases) Ft k Hin).
      congruence.
    + split; auto.
Qed.

Lemma credentials_iff_fields_present_witness :
  (exists t u,
     result (tokenSource None sample_fetch (Some sample_params) None)
     = Return (mkCredentials t u)
     /\ first_present sample_token_response token_aliases = Some t
     /\ first_present sample_token_response url_aliases = Some u
     /\ truthy t = true /\ truthy u = true)
  /\ result (tokenSource None empty_url_fetch (Some sample_params) None)
     = Throw missing_connection_fields
  /\ result (tokenSource None null_fetch (Some sample_params) None)
     = Throw TypeError.
Proof.
  split.
  - apply (proj1 (proj2 (credentials_iff_fields_present None sample_fetch
                           sample_params None sample_token_response eq_refl)
                    ltac:(discriminate))).
    split; [exists "participant_token" | exists "server_url"];
      (split; [simpl; auto | reflexivity]).
  - split.
    + apply (proj2 (proj2 (credentials_iff_fields_present None empty_url_fetch
                             sample_params None empty_url_response eq_refl)
                      ltac:(discriminate))).
      right. intros k [<- | [<- | []]]; reflexivity.
    + apply (proj1 (credentials_iff_fields_present None null_fetch sample_params
                      None JNull eq_refl)).
      reflexivity.
Defined.

(** C5, as the specification has it, fails on the answer [null]: no field
    is there under any alias, and yet the fetch does not fail with the
    error of the missing connection fields but with a type error. *)
Lemma null_answer_is_a_type_error :
  (forall k, In k token_aliases -> present JNull k = false)
  /\ (forall k, In k url_aliases -> present JNull k = false)
  /\ result (tokenSource None null_fetch (Some sample_params) None)
     = Throw TypeError
  /\ result (tokenSource None null_fetch (Some sample_params) None)
     <> Throw missing_connection_fields.
Proof.
  split; [|split; [|split]].
  - intros k _. reflexivity.
  - intros k _. reflexivity.
  - reflexivity.
  - discriminate.
Qed.

(** C7: the request of the credential fetch carries [room_name] and
    [participant_name] and nothing else.  The token source hands a third
    argument to [getToken], an agent name that is never empty, and
    [getToken], which declares two parameters, drops it: the body has no
    [agent_name]. *)
Theorem getToken_drops_agent_name
    (url : option string) (fetch : Request -> outcome Response)
    (p : SessionParams) (options : option TokenOptions) :
  let fields := [("room_name", JString (roomName p));
                 ("participant_name", JString (participantName p))] in
  requests (tokenSource url fetch (Some p) options)
  = [mkRequest (API_BASE url ++ "/token")%string (Some "POST")
       [("Content-Type", "application/json")] (JsonBody (JObject fields))]
  /\ lookup "room_name" fields = Some (JString (roomName p))
  /\ lookup "participant_name" fields = Some (JString (participantName p))
  /\ agentName_or_default options <> ""
  /\ lookup "agent_name" fields = None
  /\ getToken url fetch
       [Some (roomName p); Some (participantName p);
        Some (agentName_or_default options)]
     = getToken url fetch [Some (roomName p); Some (participantName p)].
Proof.
  intros fields. repeat split.
  - unfold agentName_or_default.
    destruct options as [[[a|]]|]; simpl; try discriminate.
    destruct (String.eqb_spec a ""); [discriminate | assumption].
Qed.

(** ** The connection controller *)

Lemma step_sessionParams (ev : Event) (c : VoiceAgent) :
  sessionParams (step ev c) = sessionParams c.
Proof.
  destruct ev as [ | | [|] | state err ]; try reflexivity;
    unfold step, fire.
  - destruct (watchdog c); [|reflexivity].
    unfold handleRetry. cbn [retryAttemptsRef session].
    destruct (maxRetries <=? retryAttemptsRef c)%nat; [reflexivity|].
    destruct (isConnecting (session c)); reflexivity.
  - destruct (backoff c); reflexivity.
Qed.

Lemma run_sessionParams (events : list Event) (c : VoiceAgent) :
  sessionParams (run events c) = sessionParams c.
Proof.
  revert c. induction events as [|ev events IH]; intros c; simpl.
  - reflexivity.
  - rewrite IH. apply step_sessionParams.
Qed.

(** C8, as the code has it: the room name and the participant name are
    made once, when the controller mounts, from one random session id; they
    are not empty, and whatever happens afterwards every session attempt of
    that controller, a retry as well, sends this one pair to the Credential
    Provider.  Where no random id can be drawn there are no identifiers,
    and the credential fetch fails before any request. *)
Theorem session_identifiers_fixed_at_mount
    (sessionId : string) (events : list Event)
    (url : option string) (fetch : Request -> outcome Response)
    (options : option TokenOptions) :
  let c := run events (mount (Some sessionId)) in
  let room := ("voice-demo-" ++ sessionId)%string in
  let participant := ("user-" ++ sessionId)%string in
  sessionParams c = Some (mkSessionParams room participant)
  /\ room <> "" /\ participant <> ""
  /\ requests (tokenSource url fetch (sessionParams c) options)
     = [mkRequest (API_BASE url ++ "/token")%string (Some "POST")
          [("Content-Type", "application/json")]
          (JsonBody (JObject [("room_name", JString room);
                              ("participant_name", JString participant)]))]
  /\ tokenSource url fetch (sessionParams (run events (mount None))) options
     = ([], Throw initialization_in_progress).
Proof.
  intros c room participant. subst c.
  rewrite !run_sessionParams. simpl.
  repeat split; discriminate.
Qed.

(** C8, as the specification has it, fails: the first attempt and the retry
    after it are two attempts, and both send the same room name and the
    same participant name. *)
Lemma retry_reuses_session_identifiers :
  let first := run [StartCall] (mount (Some sample_uuid)) in
  let retry := run [StartCall; Fires Watchdog; Fires Backoff] (mount (Some sample_uuid)) in
  startCalls (session first) = 1
  /\ startCalls (session retry) = 2
  /\ requests (tokenSource None sample_fetch (sessionParams first) None)
     = requests (tokenSource None sample_fetch (sessionParams retry) None)
  /\ sessionParams retry
     = Some (mkSessionParams "voice-demo-3b241101-e2bb-4255-8caf-4136c566a962"
               "user-3b241101-e2bb-4255-8caf-4136c566a962").
Proof.
  repeat split.
Qed.

Lemma handleRetry_noop (c : VoiceAgent) :
  maxRetries <= retryAttemptsRef c \/ isConnecting (session c) = false ->
  handleRetry c = c.
Proof.
  intros H. unfold handleRetry.
  destruct (Nat.leb_spec maxRetries (retryAttemptsRef c)) as [Hle|Hlt];
    [reflexivity|].
  destruct H as [H|H]; [lia|]. rewrite H. reflexivity.
Qed.

Lemma handleRetry_retries (c : VoiceAgent) :
  retryAttemptsRef c < maxRetries ->
  isConnecting (session c) = true ->
  handleRetry c
  = mkVoiceAgent (session_end (session c)) (sessionParams c)
      (retryAttemptsRef c + 1) false
      (backoff c ++ [(700 * Z.of_nat (retryAttemptsRef c + 1))%Z]).
Proof.
  intros Hlt Hc. unfold handleRetry.
  destruct (Nat.leb_spec maxRetries (retryAttemptsRef c)) as [Hle|_]; [lia|].
  rewrite Hc. cbn [negb].
  unfold update_session, render, with_session.
  cbn [session sessionParams retryAttemptsRef watchdog backoff].
  replace (isConnected (session_end (session c))) with false by reflexivity.
  rewrite Bool.andb_false_r. reflexivity.
Qed.

Lemma render_retry_bound (prev : ConnectionState) (c : VoiceAgent) :
  retryAttemptsRef c <= maxRetries ->
  retryAttemptsRef (render prev c) <= maxRetries.
Proof.
  intros H. unfold render. cbn [retryAttemptsRef].
  destruct (negb (ConnectionState_eqb prev (connectionState (session c)))
            && isConnected (session c)); [apply Nat.le_0_l | exact H].
Qed.

Lemma handleRetry_retry_bound (c : VoiceAgent) :
  retryAttemptsRef c <= maxRetries ->
  retryAttemptsRef (handleRetry c) <= maxRetries.
Proof.
  intros H. unfold handleRetry.
  destruct (Nat.leb_spec maxRetries (retryAttemptsRef c)) as [Hle|Hlt];
    [exact H|].
  destruct (isConnecting (session c)); [|exact H].
  apply render_retry_bound. cbn [retryAttemptsRef with_session]. lia.
Qed.

Lemma step_retry_bound (ev : Event) (c : VoiceAgent) :
  retryAttemptsRef c <= maxRetries ->
  retryAttemptsRef (step ev c) <= maxRetries.
Proof.
  intros H. destruct ev as [ | | [|] | state err ]; unfold step, fire.
  - now apply render_retry_bound.
  - now apply render_retry_bound.
  - destruct (watchdog c); [|exact H]. now apply handleRetry_retry_bound.
  - destruct (backoff c); [exact H|]. now apply render_retry_bound.
  - now apply render_retry_bound.
Qed.

Lemma run_retry_bound (events : list Event) (c : VoiceAgent) :
  retryAttemptsRef c <= maxRetries ->
  retryAttemptsRef (run events c) <= maxRetries.
Proof.
  revert c. induction events as [|ev events IH]; intros c H; simpl.
  - exact H.
  - apply IH. now apply step_retry_bound.
Qed.

(** C9: the retry handler changes nothing unless the session is connecting
    or reconnecting and the retry counter is below [maxRetries]; where both
    hold it counts the retry, ends the session and sets one timeout for the
    restart.  So the counter never exceeds [maxRetries], which is 2, in any
    state the controller reaches, and a watchdog that fires once the session
    is connected or has been ended starts no retry. *)
Theorem handleRetry_guarded (c : VoiceAgent) :
  (maxRetries <= retryAttemptsRef c \/ isConnecting (session c) = false ->
   handleRetry c = c)
  /\ (retryAttemptsRef c < maxRetries ->
      isConnecting (session c) = true ->
      handleRetry c
      = mkVoiceAgent (session_end (session c)) (sessionParams c)
          (retryAttemptsRef c + 1) false
          (backoff c ++ [(700 * Z.of_nat (retryAttemptsRef c + 1))%Z]))
  /\ maxRetries = 2
  /\ (forall events randomUUID,
        retryAttemptsRef (run events (mount randomUUID)) <= maxRetries)
  /\ (connectionState (session c) = Connected
      \/ connectionState (session c) = Disconnected ->
      session (fire Watchdog c) = session c
      /\ retryAttemptsRef (fire Watchdog c) = retryAttemptsRef c
      /\ backoff (fire Watchdog c) = backoff c).
Proof.
  split; [apply handleRetry_noop|].
  split; [apply handleRetry_retries|].
  split; [reflexivity|].
  split.
  - intros events randomUUID. apply run_retry_bound. apply Nat.le_0_l.
  - intros H. unfold fire. destruct (watchdog c); [|auto].
    rewrite handleRetry_noop; [auto|].
    right. unfold isConnecting. cbn [session].
    destruct H as [-> | ->]; reflexivity.
Qed.

Lemma handleRetry_guarded_witness :
  handleRetry (run [StartCall; SessionChanged Connected None] (mount None))
  = run [StartCall; SessionChanged Connected None] (mount None)
  /\ handleRetry (run [StartCall] (mount None))
     = mkVoiceAgent (mkSession Disconnected None 1 1) None 1 false [700%Z]
  /\ session (fire Watchdog (run [StartCall; EndCall] (mount None)))
     = mkSession Disconnected None 1 1.
Proof.
  split; [|split].
  - apply (proj1 (handleRetry_guarded
                    (run [StartCall; SessionChanged Connected None] (mount None)))).
    right. reflexivity.
  - apply (proj1 (proj2 (handleRetry_guarded (run [StartCall] (mount None))))).
    + unfold maxRetries. simpl. lia.
    + reflexivity.
  - apply (proj2 (proj2 (proj2 (proj2
             (handleRetry_guarded (run [StartCall; EndCall] (mount None))))))).
    right. reflexivity.
Defined.

Lemma render_unless_connected (prev : ConnectionState) (c : VoiceAgent) :
  isConnected (session c) = false ->
  render prev c
  = mkVoiceAgent (session c) (sessionParams c) (retryAttemptsRef c)
      (isConnecting (session c)) (backoff c).
Proof.
  intros H. unfold render. rewrite H, Bool.andb_false_r. reflexivity.
Qed.

Lemma fire_attempts_accounted (t : Timer) (c : VoiceAgent) :
  attempts_accounted c -> attempts_accounted (fire t c).
Proof.
  intros H. destruct t; unfold fire.
  - destruct (watchdog c); [|exact H].
    destruct H as (Hs & Hr & Hsum).
    set (c' := mkVoiceAgent (session c) (sessionParams c) (retryAttemptsRef c)
                 false (backoff c)).
    destruct (Nat.leb_spec maxRetries (retryAttemptsRef c')) as [Hle|Hlt].
    + rewrite handleRetry_noop by (now left). repeat split; assumption.
    + destruct (isConnecting (session c')) eqn:Hc.
      * rewrite handleRetry_retries by assumption.
        subst c'. cbn [retryAttemptsRef session backoff] in *.
        unfold attempts_accounted.
        cbn [retryAttemptsRef session backoff session_end connectionState startCalls].
        rewrite length_app. cbn [List.length].
        repeat split; [discriminate | lia | lia].
      * rewrite handleRetry_noop by (now right). repeat split; assumption.
  - destruct (backoff c) as [|d rest] eqn:Hb; [exact H|].
    destruct H as (Hs & Hr & Hsum). rewrite Hb in Hsum.
    unfold update_session.
    rewrite render_unless_connected by reflexivity.
    unfold attempts_accounted.
    cbn [with_session retryAttemptsRef session backoff session_start
         connectionState startCalls].
    cbn [List.length] in Hsum.
    repeat split; [discriminate | lia | lia].
Qed.

Lemma run_timers_attempts_accounted (ts : list Timer) (c : VoiceAgent) :
  attempts_accounted c -> attempts_accounted (run (map Fires ts) c).
Proof.
  revert c. induction ts as [|t ts IH]; intros c H; simpl.
  - exact H.
  - apply IH. now apply fire_attempts_accounted.
Qed.

Lemma run_timers_idle (ts : list Timer) (c : VoiceAgent) :
  watchdog c = false -> backoff c = [] -> run (map Fires ts) c = c.
Proof.
  intros Hw Hb. induction ts as [|t ts IH]; simpl; [reflexivity|].
  destruct t; unfold fire; rewrite ?Hw, ?Hb; exact IH.
Qed.

(** C1, as the code has it: with [maxRetries] 2 and connection attempts
    that each stay in [Connecting] until the watchdog fires, one start by
    the user leads to exactly 3 calls of [session.start()], the first one
    and 2 retries after 700 ms and 1400 ms; no order of timer firings leads
    to more.  When the watchdog of the third attempt fires the retry
    handler returns at once: the session stays in [Connecting], the
    controller sets no error and no timer is pending any more. *)
Theorem three_attempts_then_idle (randomUUID : option string) :
  let c := run timed_out_attempts (mount randomUUID) in
  feasible timed_out_attempts (mount randomUUID) = true
  /\ c = mkVoiceAgent (mkSession Connecting None 3 2)
           (initSessionParams randomUUID) maxRetries false []
  /\ backoff (run (firstn 2 timed_out_attempts) (mount randomUUID)) = [700%Z]
  /\ backoff (run (firstn 4 timed_out_attempts) (mount randomUUID)) = [1400%Z]
  /\ handleRetry c = c
  /\ (forall ts : list Timer, run (map Fires ts) c = c)
  /\ (forall ts : list Timer,
        startCalls (session (run (StartCall :: map Fires ts) (mount randomUUID)))
        <= 1 + maxRetries).
Proof.
  intros c.
  assert (Ec : c = mkVoiceAgent (mkSession Connecting None 3 2)
                     (initSessionParams randomUUID) maxRetries false [])
    by reflexivity.
  split; [reflexivity|]. split; [exact Ec|].
  split; [reflexivity|]. split; [reflexivity|].
  split; [rewrite Ec; reflexivity|].
  split.
  - intros ts. rewrite Ec. now apply run_timers_idle.
  - intros ts.
    assert (H : attempts_accounted
                  (run (map Fires ts) (step StartCall (mount randomUUID)))).
    { apply run_timers_attempts_accounted.
      repeat split; [discriminate | apply Nat.le_0_l]. }
    destruct H as (_ & _ & H). cbn [run]. lia.
Qed.

(** C1, as the specification has it, fails.  Let the Credential Provider
    fail on every call (no session id could be drawn).  If each attempt
    waits for its watchdog, there are 3 attempts, but then the session is
    still [Connecting] and shows no error: it is not [Failed].  If the
    library reports the failure at once, the session is [Failed] after the
    first attempt, and no timer is left that would start a second one. *)
Lemma retries_do_not_end_in_failed :
  result (tokenSource None sample_fetch
            (sessionParams (run timed_out_attempts (mount None))) None)
  = Throw initialization_in_progress
  /\ startCalls (session (run timed_out_attempts (mount None))) = 3
  /\ connectionState (session (run timed_out_attempts (mount None))) = Connecting
  /\ error (session (run timed_out_attempts (mount None))) = None
  /\ ~ three_attempts_then_failed (run timed_out_attempts (mount None))
  /\ failed (run rejected_attempt (mount None))
  /\ startCalls (session (run rejected_attempt (mount None))) = 1
  /\ watchdog (run rejected_attempt (mount None)) = false
  /\ backoff (run rejected_attempt (mount None)) = []
  /\ ~ three_attempts_then_failed (run rejected_attempt (mount None)).
Proof.
  repeat split; try discriminate.
  - intros [_ [H _]]. discriminate.
  - intros [H _]. discriminate.
Qed.

(** C4: [end()] yields [Disconnected] from every state, a second [end()]
    changes nothing but the count of the calls, and the watchdog is
    cleared; the timeouts that [handleRetry] has set stay pending.  In the
    run below the user ends a call while such a timeout is pending, and
    when it fires the session is started again. *)
Theorem end_leaves_backoff_pending (c : VoiceAgent) :
  connectionState (session (handleDisconnect c)) = Disconnected
  /\ watchdog (handleDisconnect c) = false
  /\ with_session (session (handleDisconnect c)) (handleDisconnect (handleDisconnect c))
     = handleDisconnect c
  /\ backoff (handleDisconnect c) = backoff c
  /\ feasible (call_ended_during_backoff ++ [Fires Backoff]) (mount None) = true
  /\ run call_ended_during_backoff (mount None)
     = mkVoiceAgent (mkSession Disconnected None 2 2) None 0 false [700%Z]
  /\ run [Fires Backoff] (run call_ended_during_backoff (mount None))
     = mkVoiceAgent (mkSession Connecting None 3 2) None 0 true [].
Proof.
  unfold handleDisconnect, update_session.
  rewrite !render_unless_connected by reflexivity.
  repeat split.
Qed.

(** ** Push to talk *)

Lemma onEvent_success_agree (ev : PointerEvent) (m : Mic) :
  isPushToTalkActive m = isMicrophoneEnabled m ->
  isPushToTalkActive (onEvent ev (Return tt) m)
  = isMicrophoneEnabled (onEvent ev (Return tt) m).
Proof.
  intros H. destruct ev; simpl; try reflexivity.
  destruct (isPushToTalkActive m) eqn:E; [reflexivity | congruence].
Qed.

Lemma run_pointer_success_agree (events : list PointerEvent) (m : Mic) :
  isPushToTalkActive m = isMicrophoneEnabled m ->
  isPushToTalkActive (run_pointer (all_succeed events) m)
  = isMicrophoneEnabled (run_pointer (all_succeed events) m).
Proof.
  revert m. induction events as [|ev events IH]; intros m H.
  - exact H.
  - apply IH. now apply onEvent_success_agree.
Qed.

(** C6, as the code has it: the flag is set before the microphone is
    asked for.  If enabling the microphone fails during a press, the flag
    is on and the microphone is as it was before the press, so that the two
    differ if the microphone was off; the rejection goes to the pointer
    handler, which drops it, and nothing of it is kept.  A release whose
    microphone call succeeds turns both off.  As long as every microphone
    call succeeds, flag and microphone agree after each event. *)
Theorem failed_press_leaves_flag_on (m : Mic) (e : exn) :
  startTalking (Throw e) m = (mkMic true (isMicrophoneEnabled m), Throw e)
  /\ onEvent ButtonPointerDown (Throw e) m = mkMic true (isMicrophoneEnabled m)
  /\ (isMicrophoneEnabled m = false ->
      isPushToTalkActive (onEvent ButtonPointerDown (Throw e) m)
      <> isMicrophoneEnabled (onEvent ButtonPointerDown (Throw e) m))
  /\ onEvent WindowRelease (Return tt) (onEvent ButtonPointerDown (Throw e) m)
     = mkMic false false
  /\ onEvent ButtonPointerUp (Return tt) (onEvent ButtonPointerDown (Throw e) m)
     = mkMic false false
  /\ onEvent ButtonPointerUp (Throw e) m = mkMic false (isMicrophoneEnabled m)
  /\ onEvent ButtonPointerUp (Return tt) m = mkMic false false
  /\ (forall events,
        isPushToTalkActive (run_pointer (all_succeed events) Mic_initial)
        = isMicrophoneEnabled (run_pointer (all_succeed events) Mic_initial)).
Proof.
  split; [reflexivity|]. split; [reflexivity|]. split.
  { intros H. simpl. rewrite H. discriminate. }
  repeat split.
  intros events. now apply run_pointer_success_agree.
Qed.

Lemma failed_press_leaves_flag_on_witness :
  isPushToTalkActive (onEvent ButtonPointerDown (Throw permission_denied) Mic_initial)
  <> isMicrophoneEnabled (onEvent ButtonPointerDown (Throw permission_denied) Mic_initial).
Proof.
  apply (proj1 (proj2 (proj2
           (failed_press_leaves_flag_on Mic_initial permission_denied)))).
  reflexivity.
Defined.

(** C6, as the specification has it, fails: the microphone is refused
    during a press, and afterwards the flag is on while the microphone is
    off. *)
Lemma failed_press_sets_flag :
  isPushToTalkActive
    (onEvent ButtonPointerDown (Throw permission_denied) (mkMic false false)) = true
  /\ isMicrophoneEnabled
       (onEvent ButtonPointerDown (Throw permission_denied) (mkMic false false)) = false.
Proof.
  split; reflexivity.
Qed.

(** * Further properties *)

(** ** The transcript view *)

(** A segment handed to the view is in the merged view exactly when its
    text has a code unit that is not white space: a segment with a missing
    text, the empty text, or a text of nothing but blanks, tabs, line
    breaks, no-break spaces and the like is left out. *)
Theorem segment_shown_iff_visible (data : TranscriptData) (r : Role) (s : Segment) :
  In s (segments_of r data) ->
  (In (entry_of r s) (allSegments (Some data)) <->
   exists t, seg_text s = Some t /\ visible t).
Proof.
  destruct data as [ag us]. intros Hin.
  assert (Hin' : In s (match r with agent => ag | user => us end))
    by (destruct r; exact Hin).
  rewrite allSegments_In. split.
  - intros [r' [s' [_ [T E]]]].
    apply has_text_visible in T. destruct T as [t' [Et' V]].
    apply (f_equal text) in E. cbn [entry_of text] in E. rewrite Et' in E.
    destruct (seg_text s) as [t|].
    + exists t. split; [reflexivity|]. now rewrite E.
    + subst t'. destruct V as [c [[] _]].
  - intros V. exists r, s.
    split; [exact Hin' | split; [now apply has_text_visible | reflexivity]].
Qed.

Lemma allSegments_nil_iff (ag us : list Segment) :
  allSegments (Some (mkTranscriptData ag us)) = [] <->
  forall s, In s ag \/ In s us -> has_text s = false.
Proof.
  split.
  - intros E s Hs. destruct (has_text s) eqn:T; [exfalso | reflexivity].
    destruct Hs as [Hs|Hs].
    + assert (H : In (entry_of agent s) (allSegments (Some (mkTranscriptData ag us))))
        by (apply allSegments_In; exists agent, s; auto).
      rewrite E in H. exact H.
    + assert (H : In (entry_of user s) (allSegments (Some (mkTranscriptData ag us))))
        by (apply allSegments_In; exists user, s; auto).
      rewrite E in H. exact H.
  - intros H.
    destruct (allSegments (Some (mkTranscriptData ag us))) as [|e l] eqn:E;
      [reflexivity | exfalso].
    assert (He : In e (allSegments (Some (mkTranscriptData ag us))))
      by (rewrite E; now left).
    apply allSegments_In in He. destruct He as [r [s [Hs [T _]]]].
    rewrite H in T; [discriminate|]. destruct r; auto.
Qed.

Lemma has_text_false (s : Segment) :
  has_text s = false <-> forall t, seg_text s = Some t -> ~ visible t.
Proof.
  split.
  - intros H t Et V.
    assert (T : has_text s = true) by (apply has_text_visible; now exists t).
    congruence.
  - intros H. destruct (has_text s) eqn:T; [|reflexivity].
    apply has_text_visible in T. destruct T as [t [Et V]].
    exfalso. now apply (H t).
Qed.

(** The placeholder "Transcripts will appear here" stands for an empty
    [allSegments]: it is shown exactly when there is no data yet or no
    segment of either role has a text with a code unit that is not white
    space. *)
Theorem placeholder_iff_nothing_to_show (transcriptData : option TranscriptData) :
  allSegments transcriptData = [] <->
  forall data, transcriptData = Some data ->
    forall r s t, In s (segments_of r data) -> seg_text s = Some t -> ~ visible t.
Proof.
  destruct transcriptData as [[ag us]|].
  - rewrite allSegments_nil_iff. split.
    + intros H data E r s t Hs. inversion E; subst data.
      apply has_text_false. apply H. destruct r; simpl in Hs; auto.
    + intros H s Hs. apply has_text_false. intros t.
      destruct Hs as [Hs|Hs].
      * apply (H _ eq_refl agent s t Hs).
      * apply (H _ eq_refl user s t Hs).
  - split; [intros _ data E; discriminate | reflexivity].
Qed.

Lemma placeholder_iff_nothing_to_show_witness :
  allSegments (Some (mkTranscriptData [segment_of_blanks] [segment_without_text])) = [].
Proof.
  apply (proj2 (placeholder_iff_nothing_to_show _)).
  intros data E r s t Hs Et [c [Hin Hc]]. inversion E; subst data.
  apply Hc, is_white_space_table.
  destruct r; simpl in Hs; destruct Hs as [<- | []]; [|discriminate].
  inversion Et; subst t.
  destruct Hin as [<- | [<- | [<- | []]]]; reflexivity.
Defined.

Section SortedSort.

Context {A : Type}.
Variable key : A -> Z.

Lemma sort_insert_below (a : A) (l : list A) :
  Forall (fun b => (key a <= key b)%Z) l ->
  sort_insert (fun x y => (key x - key y)%Z) a l = a :: l.
Proof.
  intros H. destruct l as [|b l]; simpl; [reflexivity|].
  inversion H; subst.
  destruct (Z.leb_spec (key a - key b) 0); [reflexivity | lia].
Qed.

(** Sorting what is sorted changes nothing. *)
Lemma sort_of_sorted (l : list A) :
  StronglySorted (fun a b => (key a <= key b)%Z) l ->
  sort (fun x y => (key x - key y)%Z) l = l.
Proof.
  induction 1 as [|a l Hl IH Ha]; simpl; [reflexivity|].
  rewrite IH. now apply sort_insert_below.
Qed.

Lemma filter_sort_insert (p : A -> bool) (a : A) (l : list A) :
  StronglySorted (fun a b => (key a <= key b)%Z) l ->
  filter p (sort_insert (fun x y => (key x - key y)%Z) a l)
  = if p a then sort_insert (fun x y => (key x - key y)%Z) a (filter p l)
    else filter p l.
Proof.
  induction 1 as [|b l Hl IH Hb]; simpl.
  - destruct (p a); reflexivity.
  - destruct (Z.leb_spec (key a - key b) 0) as [Hle|Hgt]; simpl.
    + destruct (p a) eqn:Pa; [|reflexivity].
      destruct (p b) eqn:Pb; simpl.
      * destruct (Z.leb_spec (key a - key b) 0); [reflexivity | lia].
      * rewrite sort_insert_below; [reflexivity|].
        apply Forall_forall. intros c Hc. apply filter_In in Hc.
        destruct Hc as [Hc _]. rewrite Forall_forall in Hb.
        specialize (Hb c Hc). lia.
    + rewrite IH. destruct (p b) eqn:Pb; simpl.
      * destruct (p a); [|reflexivity].
        destruct (Z.leb_spec (key a - key b) 0); [lia | reflexivity].
      * reflexivity.
Qed.

(** A stable sort and a filter commute. *)
Lemma filter_sort (p : A -> bool) (l : list A) :
  filter p (sort (fun x y => (key x - key y)%Z) l)
  = sort (fun x y => (key x - key y)%Z) (filter p l).
Proof.
  induction l as [|a l IH]; simpl; [reflexivity|].
  rewrite filter_sort_insert by apply (sort_sorted key).
  rewrite IH. destruct (p a); reflexivity.
Qed.

End SortedSort.

Lemma of_role_entries_of (r r' : Role) (segments : list Segment) :
  of_role r (entries_of r' segments)
  = if Role_eqb r' r then entries_of r' segments else [].
Proof.
  unfold of_role, entries_of.
  induction (filter has_text segments) as [|s l IH]; simpl.
  - now destruct (Role_eqb r' r).
  - rewrite IH. destruct (Role_eqb r' r); reflexivity.
Qed.

(** What the merged view shows of one role is that role's own entries,
    sorted by timestamp with ties in their order of arrival: the segments
    of the other role never change the order among them.  If the
    timestamps of the role's entries do not decrease along its list, the
    view shows them in exactly the order of the list. *)
Theorem role_keeps_its_order (ag us : list Segment) (r : Role) :
  let merged := allSegments (Some (mkTranscriptData ag us)) in
  let own := entries_of r (segments_of r (mkTranscriptData ag us)) in
  of_role r merged = sort by_timestamp own
  /\ (StronglySorted (fun a b => (timestamp a <= timestamp b)%Z) own ->
      of_role r merged = own).
Proof.
  intros merged own.
  assert (E : of_role r merged = sort by_timestamp own).
  { subst merged own. rewrite allSegments_unfold. unfold of_role.
    rewrite (filter_sort timestamp), filter_app.
    fold (of_role r (entries_of agent ag)). fold (of_role r (entries_of user us)).
    rewrite !of_role_entries_of.
    destruct r; simpl; [now rewrite app_nil_r | reflexivity]. }
  split; [exact E|].
  intros H. rewrite E. now apply (sort_of_sorted timestamp).
Qed.

Lemma role_keeps_its_order_witness :
  of_role user
    (allSegments (Some (mkTranscriptData [segment_a1; segment_without_time]
                          [segment_u1; segment_u2])))
  = [entry_of user segment_u1; entry_of user segment_u2].
Proof.
  apply (proj2 (role_keeps_its_order [segment_a1; segment_without_time]
                  [segment_u1; segment_u2] user)).
  cbv [segments_of user_segments entries_of].
  change (filter has_text [segment_u1; segment_u2]) with [segment_u1; segment_u2].
  cbn [map].
  apply SSorted_cons; [apply SSorted_cons; [apply SSorted_nil | apply Forall_nil]|].
  apply Forall_cons; [|apply Forall_nil].
  cbv. discriminate.
Defined.



Lemma segment_shown_iff_visible_witness :
  In (entry_of user segment_u2)
    (allSegments (Some (mkTranscriptData [segment_a1; segment_of_blanks]
                          [segment_u1; segment_u2])))
  /\ ~ In (entry_of agent segment_of_blanks)
         (allSegments (Some (mkTranscriptData [segment_a1; segment_of_blanks]
                               [segment_u1; segment_u2]))).
Proof.
  split.
  - apply (proj2 (segment_shown_iff_visible
                    (mkTranscriptData [segment_a1; segment_of_blanks]
                       [segment_u1; segment_u2]) user segment_u2
                    (or_intror (or_introl eq_refl)))).
    exists (units " and who wrote it? "). split; [reflexivity|].
    exists 97%N. split; [simpl; auto|].
    intros H. apply is_white_space_table in H. discriminate H.
  - intros H.
    apply (proj1 (segment_shown_iff_visible
                    (mkTranscriptData [segment_a1; segment_of_blanks]
                       [segment_u1; segment_u2]) agent segment_of_blanks
                    (or_intror (or_introl eq_refl)))) in H.
    destruct H as [t [Et [c [Hin Hc]]]]. inversion Et; subst t.
    apply Hc, is_white_space_table.
    destruct Hin as [<- | [<- | [<- | []]]]; reflexivity.
Defined.

(** ** Citations *)

Lemma rag_sources_update_returns (data : json) :
  data <> JNull -> exists r, rag_sources_update data = Return r.
Proof.
  intros Hnull. unfold rag_sources_update.
  destruct data as [ | b | n | s | items | fields ];
    try contradiction; simpl; try (eexists; reflexivity).
  destruct (is_rag_sources (lookup "type" fields)); [|eexists; reflexivity].
  destruct (lookup "sources" fields) as [v|]; [|eexists; reflexivity].
  destruct (truthy v); eexists; reflexivity.
Qed.

(** Something goes to [console.error] only when the payload does not parse
    or parses to [null]: the parse error, or the type error of reading
    [null.type].  A message of another type, or one without sources, is
    dropped without a trace. *)
Theorem citation_errors_logged {S : Type} (update : option (json -> S -> S))
    (parsed : outcome json) (st : S) :
  snd (onRagSourcesMessage update parsed st)
  = match parsed with
    | Throw e => [e]
    | Return JNull => [TypeError]
    | Return _ => []
    end.
Proof.
  unfold onRagSourcesMessage.
  destruct parsed as [data|e]; [|reflexivity].
  destruct data as [ | b | n | s | items | fields ]; try reflexivity.
  cbn [bind].
  destruct (rag_sources_update_returns (JObject fields)) as [r ->];
    [discriminate|].
  destruct r as [v|]; [|reflexivity]. destruct update; reflexivity.
Qed.

Lemma App_onRagSourcesMessage_cases (parsed : outcome json) (app : App) :
  (exists v, accepted_sources parsed v
             /\ App_onRagSourcesMessage parsed app = mkApp (transcriptData app) v)
  \/ ((forall v, ~ accepted_sources parsed v)
      /\ App_onRagSourcesMessage parsed app = app).
Proof.
  unfold App_onRagSourcesMessage, onRagSourcesMessage.
  destruct parsed as [data|e]; simpl.
  - pose proof (rag_sources_update_cases data) as H.
    destruct (rag_sources_update data) as [[w|]|e].
    + left. exists w. split; [exists data; tauto | reflexivity].
    + right. split; [|reflexivity].
      intros v [d [E Hd]]. inversion E; subst d. now apply (H v).
    + right. split; [|reflexivity].
      intros v [d [E Hd]]. inversion E; subst d. now apply (H v).
  - right. split; [|reflexivity]. intros v [d [E _]]. discriminate.
Qed.

Lemma run_messages_app (xs ys : list (outcome json)) (app : App) :
  run_messages (xs ++ ys) app = run_messages ys (run_messages xs app).
Proof.
  unfold run_messages. apply fold_left_app.
Qed.

(** Over a run of messages the citations are those of the last message
    that was accepted, whatever came before it; messages that are not
    accepted change nothing; and no message ever touches the transcript. *)
Theorem latest_citations_win (messages : list (outcome json)) (app : App) :
  (forall parsed v,
     accepted_sources parsed v ->
     ragSources (run_messages (messages ++ [parsed]) app) = v)
  /\ ((forall parsed, In parsed messages -> forall v, ~ accepted_sources parsed v) ->
      run_messages messages app = app)
  /\ transcriptData (run_messages messages app) = transcriptData app.
Proof.
  split; [|split].
  - intros parsed v Hv. rewrite run_messages_app. simpl.
    destruct (App_onRagSourcesMessage_cases parsed (run_messages messages app))
      as [[w [Hw ->]] | [Hnone _]].
    + simpl. destruct Hv as [d [E [_ [Hs _]]]]. destruct Hw as [d' [E' [_ [Hs' _]]]].
      rewrite E in E'. inversion E'; subst d'. rewrite Hs in Hs'. now inversion Hs'.
    + exfalso. now apply (Hnone v).
  - revert app. induction messages as [|m messages IH]; intros app H.
    + reflexivity.
    + simpl.
      destruct (App_onRagSourcesMessage_cases m app) as [[w [Hw _]] | [_ ->]].
      * exfalso. apply (H m (or_introl eq_refl) w Hw).
      * apply IH. intros parsed Hin. apply H. now right.
  - revert app. induction messages as [|m messages IH]; intros app.
    + reflexivity.
    + simpl. rewrite IH.
      destruct (App_onRagSourcesMessage_cases m app) as [[w [_ ->]] | [_ ->]];
        reflexivity.
Qed.

Lemma latest_citations_win_witness :
  ragSources (run_messages ([empty_sources_message; other_message]
                            ++ [two_sources_message]) App_initial)
  = JArray [citation "A"; citation "B"]
  /\ run_messages [other_message; Throw SyntaxError] App_with_two_sources
     = App_with_two_sources.
Proof.
  split.
  - apply (proj1 (latest_citations_win [empty_sources_message; other_message]
                    App_initial)).
    eexists. repeat split; reflexivity.
  - apply (proj1 (proj2 (latest_citations_win [other_message; Throw SyntaxError]
                           App_with_two_sources))).
    intros parsed [<- | [<- | []]] v [d [E [Hty _]]].
    + inversion E; subst d. discriminate.
    + discriminate.
Defined.





(** ** The calls of the API *)

(** Whatever the server does, [apiFetch] sends one request, and it returns
    data only if that request was answered with a status that is [ok] and
    a body that parsed to this data; every other answer ends in a throw. *)
Theorem data_only_from_ok_response
    (base : option string) (fetch : Request -> outcome Response)
    (endpoint : string) (options : Options) :
  (exists r, requests (apiFetch base fetch endpoint options) = [r]
             /\ url r = (API_BASE base ++ endpoint)%string
             /\ method r = opt_method options
             /\ body r = opt_body options)
  /\ forall data,
       result (apiFetch base fetch endpoint options) = Return data ->
       exists r response,
         requests (apiFetch base fetch endpoint options) = [r]
         /\ fetch r = Return response
         /\ ok response = true
         /\ json_body response = Return data.
Proof.
  split.
  - eexists. split; [reflexivity|]. repeat split.
  - intros data. unfold apiFetch, result, requests. cbn [fst snd].
    set (r := mkRequest _ _ _ _).
    destruct (fetch r) as [response|e] eqn:F; cbn [bind]; [|discriminate].
    destruct (ok response) eqn:O; cbn [negb].
    + intros H. exists r, response. auto.
    + destruct (get _ "detail"); cbn [bind]; discriminate.
Qed.

Lemma data_only_from_ok_response_witness :
  exists r response,
    requests (getDocuments None sample_fetch) = [r]
    /\ sample_fetch r = Return response
    /\ ok response = true
    /\ json_body response = Return sample_token_response.
Proof.
  apply (proj2 (data_only_from_ok_response None sample_fetch "/documents" no_options)).
  reflexivity.
Defined.




(** A request whose body is form data never carries a "Content-Type" header,
    with or without headers of the caller; so the upload of a document is a
    POST of the form with no headers at all, while a call with a JSON body
    and no headers of its own is marked "application/json". *)
Theorem form_data_without_content_type
    (base : option string) (fetch : Request -> outcome Response)
    (endpoint : string) (options : Options) (file systemPrompt : string) :
  (is_form_data (opt_body options) = true ->
   forall r v, In r (requests (apiFetch base fetch endpoint options)) ->
               ~ In ("Content-Type", v) (headers r))
  /\ requests (uploadDocument base fetch file)
     = [mkRequest (API_BASE base ++ "/documents/upload")%string (Some "POST") []
          (FormData file)]
  /\ requests (updatePrompt base fetch systemPrompt)
     = [mkRequest (API_BASE base ++ "/prompt")%string (Some "PUT")
          [("Content-Type", "application/json")]
          (JsonBody (JObject [("system_prompt", JString systemPrompt)]))].
Proof.
  split; [|split; reflexivity].
  intros Hform r v [<- | []]. cbn [headers]. rewrite Hform.
  unfold delete_header. intros Hin. apply filter_In in Hin.
  destruct Hin as [_ Hk]. cbn [fst] in Hk.
  rewrite String.eqb_refl in Hk. discriminate.
Qed.

Lemma form_data_without_content_type_witness :
  ~ In ("Content-Type", "text/plain")
      (headers (mkRequest "/api/documents/upload" (Some "POST") [("X-Trace", "1")]
                  (FormData "report.pdf"))).
Proof.
  apply (proj1 (form_data_without_content_type None sample_fetch "/documents/upload"
                  (mkOptions (Some "POST")
                     (Some [("Content-Type", "text/plain"); ("X-Trace", "1")])
                     (FormData "report.pdf")) "" "")
           eq_refl _ "text/plain").
  left. reflexivity.
Defined.

(** ** The connection controller, over all runs *)

Lemma ConnectionState_eqb_eq (a b : ConnectionState) :
  ConnectionState_eqb a b = true <-> a = b.
Proof.
  destruct a, b; simpl; split; intros H; try reflexivity; discriminate.
Qed.

Lemma update_session_watchdog (f : Session -> Session) (c : VoiceAgent) :
  watchdog (update_session f c) = isConnecting (session (update_session f c)).
Proof. reflexivity. Qed.

Lemma handleRetry_cases (c : VoiceAgent) :
  handleRetry c = c
  \/ (retryAttemptsRef c < maxRetries
      /\ isConnecting (session c) = true
      /\ handleRetry c
         = mkVoiceAgent (session_end (session c)) (sessionParams c)
             (retryAttemptsRef c + 1) false
             (backoff c ++ [(700 * Z.of_nat (retryAttemptsRef c + 1))%Z])).
Proof.
  destruct (Nat.leb_spec maxRetries (retryAttemptsRef c)) as [Hle|Hlt].
  - left. apply handleRetry_noop. now left.
  - destruct (isConnecting (session c)) eqn:Hc.
    + right. split; [exact Hlt|]. split; [reflexivity|].
      now apply handleRetry_retries.
    + left. apply handleRetry_noop. now right.
Qed.

Lemma step_watchdog (ev : Event) (c : VoiceAgent) :
  (watchdog c = true -> isConnecting (session c) = true) ->
  watchdog (step ev c) = true -> isConnecting (session (step ev c)) = true.
Proof.
  intros H. destruct ev as [ | | [|] | state err ]; unfold step, fire.
  - unfold handleConnect. now rewrite update_session_watchdog.
  - unfold handleDisconnect. now rewrite update_session_watchdog.
  - destruct (watchdog c) eqn:W; [|rewrite W; exact H].
    destruct (handleRetry_cases
                (mkVoiceAgent (session c) (sessionParams c) (retryAttemptsRef c)
                   false (backoff c))) as [-> | (_ & _ & ->)];
      cbn [watchdog]; discriminate.
  - destruct (backoff c); [exact H|]. now rewrite update_session_watchdog.
  - now rewrite update_session_watchdog.
Qed.

(** In every state the controller reaches, the watchdog is pending only
    while the session is connecting or reconnecting: leaving these states
    clears it, whatever made the session leave. *)
Theorem watchdog_only_while_connecting (events : list Event) (randomUUID : option string) :
  watchdog (run events (mount randomUUID)) = true ->
  isConnecting (session (run events (mount randomUUID))) = true.
Proof.
  assert (G : forall c,
             (watchdog c = true -> isConnecting (session c) = true) ->
             watchdog (run events c) = true ->
             isConnecting (session (run events c)) = true).
  { induction events as [|ev events IH]; intros c H; simpl; [exact H|].
    apply IH. now apply step_watchdog. }
  apply G. discriminate.
Qed.

Lemma watchdog_only_while_connecting_witness :
  isConnecting (session (run [StartCall; Fires Watchdog; Fires Backoff] (mount None)))
  = true.
Proof.
  apply (watchdog_only_while_connecting [StartCall; Fires Watchdog; Fires Backoff] None).
  reflexivity.
Defined.

Lemma update_session_budget (f : Session -> Session) (c : VoiceAgent) :
  (connectionState (session c) = Connected -> retryAttemptsRef c = 0) ->
  connectionState (session (update_session f c)) = Connected ->
  retryAttemptsRef (update_session f c) = 0.
Proof.
  intros H. unfold update_session, render, with_session.
  cbn [session retryAttemptsRef]. intros E.
  unfold isConnected. rewrite E. cbn [ConnectionState_eqb].
  rewrite Bool.andb_true_r.
  destruct (ConnectionState_eqb (connectionState (session c)) Connected) eqn:P;
    cbn [negb]; [|reflexivity].
  apply H. now apply ConnectionState_eqb_eq.
Qed.

Lemma step_budget (ev : Event) (c : VoiceAgent) :
  (connectionState (session c) = Connected -> retryAttemptsRef c = 0) ->
  connectionState (session (step ev c)) = Connected ->
  retryAttemptsRef (step ev c) = 0.
Proof.
  intros H. destruct ev as [ | | [|] | state err ]; unfold step, fire.
  - now apply update_session_budget.
  - now apply update_session_budget.
  - destruct (watchdog c); [|exact H].
    destruct (handleRetry_cases
                (mkVoiceAgent (session c) (sessionParams c) (retryAttemptsRef c)
                   false (backoff c))) as [-> | (_ & _ & ->)].
    + exact H.
    + cbn [session session_end connectionState]. discriminate.
  - destruct (backoff c); [exact H|]. now apply update_session_budget.
  - now apply update_session_budget.
Qed.

(** In every state the controller reaches, a session that is connected has
    its whole retry budget: the counter is 0. *)
Theorem connected_session_has_full_budget (events : list Event) (randomUUID : option string) :
  connectionState (session (run events (mount randomUUID))) = Connected ->
  retryAttemptsRef (run events (mount randomUUID)) = 0.
Proof.
  assert (G : forall c,
             (connectionState (session c) = Connected -> retryAttemptsRef c = 0) ->
             connectionState (session (run events c)) = Connected ->
             retryAttemptsRef (run events c) = 0).
  { induction events as [|ev events IH]; intros c H; simpl; [exact H|].
    apply IH. now apply step_budget. }
  apply G. reflexivity.
Qed.

Lemma connected_session_has_full_budget_witness :
  retryAttemptsRef
    (run [StartCall; Fires Watchdog; Fires Backoff; SessionChanged Connected None]
       (mount None)) = 0.
Proof.
  apply (connected_session_has_full_budget
           [StartCall; Fires Watchdog; Fires Backoff; SessionChanged Connected None]
           None).
  reflexivity.
Defined.

Lemma step_backoff_delays (ev : Event) (c : VoiceAgent) :
  Forall (fun d => d = 700%Z \/ d = 1400%Z) (backoff c) ->
  Forall (fun d => d = 700%Z \/ d = 1400%Z) (backoff (step ev c)).
Proof.
  intros H. destruct ev as [ | | [|] | state err ]; unfold step, fire;
    try exact H.
  - destruct (watchdog c); [|exact H].
    destruct (handleRetry_cases
                (mkVoiceAgent (session c) (sessionParams c) (retryAttemptsRef c)
                   false (backoff c))) as [-> | (Hlt & _ & ->)]; [exact H|].
    cbn [backoff retryAttemptsRef] in *. apply Forall_app. split; [exact H|].
    constructor; [|constructor].
    unfold maxRetries in Hlt.
    destruct (retryAttemptsRef c) as [|[|n]]; [left | right | lia]; reflexivity.
  - destruct (backoff c) as [|d rest] eqn:Eb; [rewrite Eb; exact H|].
    cbn [update_session render with_session backoff]. now inversion H.
Qed.

(** Every restart that is pending was scheduled 700 ms or 1400 ms after
    its retry, in every state the controller reaches. *)
Theorem backoff_is_700_or_1400 (events : list Event) (randomUUID : option string) :
  Forall (fun d => d = 700%Z \/ d = 1400%Z) (backoff (run events (mount randomUUID))).
Proof.
  assert (G : forall c,
             Forall (fun d => d = 700%Z \/ d = 1400%Z) (backoff c) ->
             Forall (fun d => d = 700%Z \/ d = 1400%Z) (backoff (run events c))).
  { induction events as [|ev events IH]; intros c H; simpl; [exact H|].
    apply IH. now apply step_backoff_delays. }
  apply G. constructor.
Qed.

Lemma update_session_unless_connected (f : Session -> Session) (c : VoiceAgent) :
  connectionState (f (session c)) <> Connected ->
  update_session f c
  = mkVoiceAgent (f (session c)) (sessionParams c) (retryAttemptsRef c)
      (isConnecting (f (session c))) (backoff c).
Proof.
  intros H. unfold update_session.
  rewrite render_unless_connected; [reflexivity|].
  unfold isConnected. cbn [with_session session].
  destruct (connectionState (f (session c))); try reflexivity. contradiction.
Qed.

Lemma step_keeps_count (ev : Event) (c : VoiceAgent) :
  not_connecting_event ev = true ->
  retryAttemptsRef c <= retryAttemptsRef (step ev c).
Proof.
  intros Hev. destruct ev as [ | | [|] | state err ]; unfold step, fire.
  - unfold handleConnect. rewrite update_session_unless_connected by discriminate.
    apply Nat.le_refl.
  - unfold handleDisconnect. rewrite update_session_unless_connected by discriminate.
    apply Nat.le_refl.
  - destruct (watchdog c); [|apply Nat.le_refl].
    destruct (handleRetry_cases
                (mkVoiceAgent (session c) (sessionParams c) (retryAttemptsRef c)
                   false (backoff c))) as [-> | (_ & _ & ->)];
      cbn [retryAttemptsRef]; lia.
  - destruct (backoff c); [apply Nat.le_refl|].
    rewrite update_session_unless_connected by discriminate. apply Nat.le_refl.
  - rewrite update_session_unless_connected.
    + apply Nat.le_refl.
    + cbn [connectionState]. destruct state; discriminate.
Qed.

Lemma step_spent (ev : Event) (c : VoiceAgent) :
  not_connecting_event ev = true ->
  spent c ->
  spent (step ev c)
  /\ startCalls (session (step ev c))
     = startCalls (session c) + user_starts [ev].
Proof.
  intros Hev [Hr Hb]. destruct ev as [ | | [|] | state err ]; unfold step, fire.
  - unfold handleConnect. rewrite update_session_unless_connected by discriminate.
    split; [split; assumption|]. cbn. lia.
  - unfold handleDisconnect. rewrite update_session_unless_connected by discriminate.
    split; [split; assumption|]. cbn. lia.
  - destruct (watchdog c); [|split; [split; assumption | cbn; lia]].
    rewrite handleRetry_noop by (left; cbn [retryAttemptsRef]; lia).
    split; [split; assumption | cbn; lia].
  - rewrite Hb. split; [split; assumption | cbn; lia].
  - rewrite update_session_unless_connected.
    + split; [split; assumption | cbn; lia].
    + cbn [connectionState]. destruct state; discriminate.
Qed.

(** The retry counter is given back only by a connection.  Along any run in
    which the session does not become connected the counter never goes
    down; and once it has reached [maxRetries], with no restart pending, it
    stays there, no restart is scheduled any more, and the session is
    started only as often as the user clicks "Start Call". *)
Theorem budget_returns_only_on_connect (events : list Event) (c : VoiceAgent) :
  forallb not_connecting_event events = true ->
  retryAttemptsRef c <= retryAttemptsRef (run events c)
  /\ (retryAttemptsRef c = maxRetries -> backoff c = [] ->
      retryAttemptsRef (run events c) = maxRetries
      /\ backoff (run events c) = []
      /\ startCalls (session (run events c))
         = startCalls (session c) + user_starts events).
Proof.
  revert c. induction events as [|ev events IH]; intros c H.
  - split; [apply Nat.le_refl|]. intros Hr Hb. cbn. repeat split; auto.
  - simpl in H. apply Bool.andb_true_iff in H. destruct H as [Hev H].
    destruct (IH (step ev c) H) as [IH1 IH2]. split.
    + cbn [run]. apply (Nat.le_trans _ (retryAttemptsRef (step ev c)));
        [now apply step_keeps_count | exact IH1].
    + intros Hr Hb.
      destruct (step_spent ev c Hev (conj Hr Hb)) as [[Hr' Hb'] Hs].
      destruct (IH2 Hr' Hb') as (R & B & St). cbn [run].
      split; [exact R|]. split; [exact B|].
      rewrite St, Hs. unfold user_starts. simpl.
      destruct ev; simpl; lia.
Qed.

Lemma budget_returns_only_on_connect_witness :
  retryAttemptsRef
    (run [SessionChanged Disconnected None; StartCall; Fires Watchdog; Fires Backoff]
       (run timed_out_attempts (mount None))) = maxRetries
  /\ startCalls
       (session
          (run [SessionChanged Disconnected None; StartCall; Fires Watchdog;
                Fires Backoff]
             (run timed_out_attempts (mount None)))) = 3 + 1.
Proof.
  destruct (budget_returns_only_on_connect
              [SessionChanged Disconnected None; StartCall; Fires Watchdog;
               Fires Backoff]
              (run timed_out_attempts (mount None)) eq_refl) as [_ H].
  destruct (H eq_refl eq_refl) as (R & _ & S). split; [exact R | exact S].
Defined.

Lemma step_attempts_accounted (ev : Event) (c : VoiceAgent) :
  timer_or_library ev = true ->
  attempts_accounted c -> attempts_accounted (step ev c).
Proof.
  intros Hev H. destruct ev as [ | | t | state err ]; try discriminate.
  - now apply fire_attempts_accounted.
  - unfold step. rewrite update_session_unless_connected.
    + destruct H as (Hs & Hr & Hsum). repeat split; try assumption.
      cbn [session connectionState]. destruct state; discriminate.
    + cbn [connectionState]. destruct state; discriminate.
Qed.

(** After one start by the user the session is started at most
    [1 + maxRetries] times, 3 times, whatever the timers and the library
    do, as long as the session does not become connected and the user does
    not act again. *)
Theorem at_most_three_starts (events : list Event) (randomUUID : option string) :
  forallb timer_or_library events = true ->
  startCalls (session (run (StartCall :: events) (mount randomUUID)))
  <= 1 + maxRetries.
Proof.
  intros H.
  assert (G : forall c, attempts_accounted c -> attempts_accounted (run events c)).
  { clear randomUUID. induction events as [|ev events IH]; intros c Hc; [exact Hc|].
    simpl in H. apply Bool.andb_true_iff in H. destruct H as [Hev H].
    simpl. apply (IH H). now apply step_attempts_accounted. }
  destruct (G (step StartCall (mount randomUUID))) as (_ & _ & Hsum).
  - repeat split; [discriminate | apply Nat.le_0_l].
  - cbn [run]. lia.
Qed.

Lemma at_most_three_starts_witness :
  startCalls
    (session
       (run (StartCall ::
             [SessionChanged Reconnecting None; Fires Watchdog; Fires Backoff;
              SessionChanged Disconnected (Some TypeError); Fires Watchdog;
              SessionChanged Connecting None; Fires Watchdog; Fires Backoff;
              Fires Watchdog; Fires Backoff])
          (mount None)))
  <= 1 + maxRetries.
Proof.
  apply (at_most_three_starts
           [SessionChanged Reconnecting None; Fires Watchdog; Fires Backoff;
            SessionChanged Disconnected (Some TypeError); Fires Watchdog;
            SessionChanged Connecting None; Fires Watchdog; Fires Backoff;
            Fires Watchdog; Fires Backoff] None).
  reflexivity.
Defined.

(** ** The status line *)


(** ** Push to talk, after a release that fails *)

Lemma window_release_while_off (outcomes : list (outcome unit)) (m : Mic) :
  isPushToTalkActive m = false ->
  run_pointer (map (fun settled => (WindowRelease, settled)) outcomes) m = m.
Proof.
  intros H. induction outcomes as [|o outcomes IH]; [reflexivity|].
  simpl. rewrite H. exact IH.
Qed.

(** If the microphone call of a release fails, the flag is off and the
    microphone is still as it was, published if it was published; and
    from then on no pointer-up, pointer-cancel or blur on the window
    changes anything, however its microphone call would settle: the
    listeners are only there while the flag is on. *)
Theorem failed_release_leaves_microphone (m : Mic) (e : exn)
    (outcomes : list (outcome unit)) :
  let released := onEvent ButtonPointerUp (Throw e) m in
  isPushToTalkActive released = false
  /\ isMicrophoneEnabled released = isMicrophoneEnabled m
  /\ (isPushToTalkActive m = true -> onEvent WindowRelease (Throw e) m = released)
  /\ run_pointer (map (fun settled => (WindowRelease, settled)) outcomes) released
     = released.
Proof.
  intros released. split; [reflexivity|]. split; [reflexivity|]. split.
  - intros H. simpl. rewrite H. reflexivity.
  - now apply window_release_while_off.
Qed.

Lemma failed_release_leaves_microphone_witness :
  onEvent WindowRelease (Throw permission_denied) (mkMic true true) = mkMic false true.
Proof.
  apply (proj1 (proj2 (proj2 (failed_release_leaves_microphone (mkMic true true)
                                permission_denied [])))).
  reflexivity.
Defined.

(** ** The knowledge base *)

Lemma upload_each_prefix (done rest : list (string * outcome json)) :
  forallb uploads done = true ->
  upload_each (done ++ rest)
  = (map UploadDocument (map fst done) ++ fst (upload_each rest),
     snd (upload_each rest)).
Proof.
  induction done as [|[file settled] done IH]; intros H.
  - simpl. now destruct (upload_each rest).
  - simpl in H. apply Bool.andb_true_iff in H. destruct H as [Hf H].
    unfold uploads in Hf. cbn [snd] in Hf.
    destruct settled as [v|e]; [|discriminate].
    cbn [app upload_each]. rewrite (IH H). reflexivity.
Qed.

Lemma loadDocuments_fields (loaded : outcome json) (st : DocumentUpload)
    (u : bool) (e : option exn) :
  loadDocuments loaded
    (mkDocumentUpload (documents st) u e (dragActive st) (deletingId st)
       (timers st) (console st))
  = mkDocumentUpload (documents (loadDocuments loaded st)) u e (dragActive st)
      (deletingId st) (timers st) (console (loadDocuments loaded st)).
Proof.
  unfold loadDocuments.
  destruct (bind loaded (fun data => get data "documents")); reflexivity.
Qed.

(** [handleUpload] does nothing for a missing or empty list of files.
    Otherwise the files are uploaded in order up to the first upload that
    fails: that one is the last call, the files behind it are not sent, the
    list of documents is not loaded again and stays as it was, and the
    error is set.  Only if every upload succeeds is the list loaded again.
    In both cases [uploading] is off at the end. *)
Theorem upload_stops_at_first_failure (loaded : outcome json) (st : DocumentUpload) :
  handleUpload None loaded st = (st, [])
  /\ handleUpload (Some []) loaded st = (st, [])
  /\ (forall done file err rest,
        forallb uploads done = true ->
        handleUpload (Some (done ++ (file, Throw err) :: rest)) loaded st
        = (mkDocumentUpload (documents st) false (Some err) (dragActive st)
             (deletingId st) (S (timers st)) (console st),
           map UploadDocument (map fst done) ++ [UploadDocument file]))
  /\ (forall files,
        files <> [] -> forallb uploads files = true ->
        handleUpload (Some files) loaded st
        = (mkDocumentUpload (documents (loadDocuments loaded st)) false None
             (dragActive st) (deletingId st) (timers st)
             (console (loadDocuments loaded st)),
           map UploadDocument (map fst files) ++ [GetDocuments])).
Proof.
  split; [reflexivity|]. split; [reflexivity|]. split.
  - intros done file err rest H. unfold handleUpload.
    destruct (done ++ (file, Throw err) :: rest) as [|x l] eqn:E.
    + destruct done; discriminate.
    + rewrite <- E, (upload_each_prefix _ _ H). reflexivity.
  - intros files Hne H. unfold handleUpload.
    destruct files as [|x l] eqn:E; [contradiction|]. rewrite <- E in *.
    rewrite <- (app_nil_r files) at 1.
    rewrite (upload_each_prefix _ _ H). cbn [upload_each fst snd].
    rewrite app_nil_r, loadDocuments_fields. reflexivity.
Qed.

Lemma upload_stops_at_first_failure_witness :
  snd (handleUpload (Some ([("a.pdf", Return JNull)]
                           ++ ("b.txt", Throw SyntaxError) :: [("c.md", Return JNull)]))
         (Return JNull) DocumentUpload_initial)
  = [UploadDocument "a.pdf"; UploadDocument "b.txt"]
  /\ snd (handleUpload (Some [("a.pdf", Return JNull); ("c.md", Return JNull)])
            (Return JNull) DocumentUpload_initial)
     = [UploadDocument "a.pdf"; UploadDocument "c.md"; GetDocuments].
Proof.
  destruct (upload_stops_at_first_failure (Return JNull) DocumentUpload_initial)
    as (_ & _ & Hfail & Hok).
  split.
  - rewrite (Hfail [("a.pdf", Return JNull)] "b.txt" SyntaxError
               [("c.md", Return JNull)] eq_refl).
    reflexivity.
  - rewrite (Hok [("a.pdf", Return JNull); ("c.md", Return JNull)]
               ltac:(discriminate) eq_refl).
    reflexivity.
Defined.

Lemma filter_documents_of_objects (docId : string) (items : list json) :
  Forall (fun d => d <> JNull) items ->
  filter_documents docId items
  = Return (filter (fun d => other_id docId (doc_id_of d)) items).
Proof.
  induction 1 as [|d items Hd _ IH]; [reflexivity|].
  cbn [filter_documents filter]. rewrite IH. unfold doc_id_of.
  destruct d; try contradiction; cbn [get bind]; reflexivity.
Qed.

Lemma filter_twice {A : Type} (p : A -> bool) (l : list A) :
  filter p (filter p l) = filter p l.
Proof.
  induction l as [|a l IH]; [reflexivity|].
  cbn [filter]. destruct (p a) eqn:P; [|exact IH].
  cbn [filter]. now rewrite P, IH.
Qed.

Lemma other_id_false (docId : string) (i : option json) :
  other_id docId i = false <-> i = Some (JString docId).
Proof.
  unfold other_id.
  destruct i as [[ | | | s | | ]|]; try (split; discriminate).
  rewrite Bool.negb_false_iff, String.eqb_eq. split.
  - now intros ->.
  - intros H. now inversion H.
Qed.

(** Deleting a document whose [doc_id] is the string [docId] from a list of
    documents none of which is [null]: when the server confirms, exactly
    the documents with another [doc_id] stay, in their order, and deleting
    the same id again changes nothing; when the server refuses, the list
    stays as it was and the error is set.  [deletingId] is cleared either
    way.  If what is held as the list is not an array, the confirmed
    delete makes the component throw. *)
Theorem delete_removes_exactly_the_id (docId : string) (st : DocumentUpload)
    (answer : json) (err : exn) :
  (forall items,
     documents st = JArray items -> Forall (fun d => d <> JNull) items ->
     exists kept,
       handleDelete docId (Return answer) st
       = Return (mkDocumentUpload (JArray kept) (uploading st) (upload_error st)
                   (dragActive st) None (timers st) (console st))
       /\ kept = filter (fun d => other_id docId (doc_id_of d)) items
       /\ (forall d, In d kept <-> In d items /\ doc_id_of d <> Some (JString docId))
       /\ handleDelete docId (Return answer)
            (mkDocumentUpload (JArray kept) (uploading st) (upload_error st)
               (dragActive st) None (timers st) (console st))
          = Return (mkDocumentUpload (JArray kept) (uploading st) (upload_error st)
                      (dragActive st) None (timers st) (console st)))
  /\ handleDelete docId (Throw err) st
     = Return (mkDocumentUpload (documents st) (uploading st) (Some err)
                 (dragActive st) None (S (timers st)) (console st))
  /\ (is_array (documents st) = false ->
      handleDelete docId (Return answer) st = Throw TypeError).
Proof.
  split; [|split].
  - intros items Hdocs Hitems.
    exists (filter (fun d => other_id docId (doc_id_of d)) items).
    assert (Hmem : forall d,
               In d (filter (fun d => other_id docId (doc_id_of d)) items) <->
               In d items /\ doc_id_of d <> Some (JString docId)).
    { intros d. rewrite filter_In. split; intros [Hin H]; (split; [exact Hin|]).
      - intros E. apply other_id_false in E. congruence.
      - destruct (other_id docId (doc_id_of d)) eqn:O; [reflexivity|].
        apply other_id_false in O. contradiction. }
    split; [|split; [reflexivity | split; [exact Hmem|]]].
    + unfold handleDelete, without_document. rewrite Hdocs.
      rewrite (filter_documents_of_objects _ _ Hitems). reflexivity.
    + unfold handleDelete, without_document. cbn [documents].
      rewrite filter_documents_of_objects.
      * cbn [bind]. now rewrite filter_twice.
      * apply Forall_forall. intros d Hd. apply filter_In in Hd.
        destruct Hd as [Hd _]. rewrite Forall_forall in Hitems. now apply Hitems.
  - reflexivity.
  - intros Harr. unfold handleDelete, without_document.
    destruct (documents st); try reflexivity. discriminate.
Qed.

Lemma delete_removes_exactly_the_id_witness :
  handleDelete "d2" (Return JNull) three_documents
  = Return (mkDocumentUpload (JArray [document "d1" "a.pdf"; document "d3" "c.md"])
              false None false None 0 [])
  /\ handleDelete "d2" (Return JNull) (mkDocumentUpload (JString "none") false None
                                         false None 0 [])
     = Throw TypeError.
Proof.
  split.
  - destruct (proj1 (delete_removes_exactly_the_id "d2" three_documents JNull TypeError)
                [document "d1" "a.pdf"; document "d2" "b.txt"; document "d3" "c.md"]
                eq_refl) as [kept [H [-> _]]].
    + repeat constructor; discriminate.
    + exact H.
  - apply (proj2 (proj2 (delete_removes_exactly_the_id "d2" _ JNull TypeError))).
    reflexivity.
Defined.

Lemma list_ascii_of_string_append (a b : string) :
  list_ascii_of_string (a ++ b)%string
  = list_ascii_of_string a ++ list_ascii_of_string b.
Proof.
  induction a as [|c a IH]; simpl; [reflexivity | now rewrite IH].
Qed.

Lemma last_part_after_dot (before after part : list ascii) :
  last_part (before ++ "."%char :: after) part = last_part after [].
Proof.
  revert part. induction before as [|c before IH]; intros part; simpl.
  - reflexivity.
  - destruct (Ascii.eqb c "."); apply IH.
Qed.

Lemma last_part_dotless (cs part : list ascii) :
  forallb (fun c => negb (Ascii.eqb c "."%char)) cs = true ->
  last_part cs part = part ++ cs.
Proof.
  revert part. induction cs as [|c cs IH]; intros part H; simpl.
  - now rewrite app_nil_r.
  - simpl in H. apply Bool.andb_true_iff in H. destruct H as [Hc H].
    apply Bool.negb_true_iff in Hc. rewrite Hc, (IH _ H), <- app_assoc.
    reflexivity.
Qed.

Lemma to_lower_twice (c : ascii) : to_lower (to_lower c) = to_lower c.
Proof.
  destruct c as [[] [] [] [] [] [] [] []]; reflexivity.
Qed.

Lemma lowercase_twice (s : string) : lowercase (lowercase s) = lowercase s.
Proof.
  unfold lowercase. rewrite list_ascii_of_string_of_list_ascii, map_map.
  f_equal. apply map_ext. intros c. apply to_lower_twice.
Qed.

Lemma to_lower_dot (c : ascii) :
  Ascii.eqb (to_lower c) "." = Ascii.eqb c ".".
Proof.
  destruct c as [[] [] [] [] [] [] [] []]; reflexivity.
Qed.

Lemma lowercase_dotless (s : string) : dotless (lowercase s) = dotless s.
Proof.
  unfold dotless, lowercase. rewrite list_ascii_of_string_of_list_ascii.
  induction (list_ascii_of_string s) as [|c l IH]; simpl; [reflexivity|].
  now rewrite to_lower_dot, IH.
Qed.

Lemma extension_of_suffix (name ext : string) :
  dotless ext = true ->
  extension (name ++ "." ++ ext) = lowercase ext.
Proof.
  intros H. unfold extension, lowercase.
  rewrite list_ascii_of_string_append. cbn [append list_ascii_of_string].
  rewrite last_part_after_dot, (last_part_dotless _ _ H). reflexivity.
Qed.

(** The colour of a document depends on nothing but what follows the last
    dot of its name, and not on the case of that: a name and any other name
    that ends in the same extension, written in lower case, get the same
    colour.  A name without a dot is taken as its own extension. *)
Theorem icon_ignores_case (name name' ext : string) :
  dotless ext = true ->
  extension (name ++ "." ++ ext) = lowercase ext
  /\ fileExtIcon (name ++ "." ++ ext) = fileExtIcon (name' ++ "." ++ lowercase ext)
  /\ extension ext = lowercase ext.
Proof.
  intros H. split; [now apply extension_of_suffix|]. split.
  - unfold fileExtIcon. rewrite (extension_of_suffix name ext H).
    rewrite (extension_of_suffix name' (lowercase ext))
      by (now rewrite lowercase_dotless).
    now rewrite lowercase_twice.
  - unfold extension, lowercase. now rewrite (last_part_dotless _ _ H).
Qed.

Lemma icon_ignores_case_witness :
  fileExtIcon ("Annual.Report" ++ "." ++ "PDF") = ClassName "text-red-400"
  /\ extension "pdf" = "pdf".
Proof.
  destruct (icon_ignores_case "Annual.Report" "x" "PDF" eq_refl) as (_ & H & _).
  destruct (icon_ignores_case "" "" "pdf" eq_refl) as (_ & _ & H').
  split; [rewrite H; reflexivity | exact H'].
Defined.

(** A document is given one of five class names, unless its extension in
    lower case is "constructor" or "__proto__": for these two the lookup in
    the table of colours finds what every object inherits, and that value
    takes the place of the class name. *)
Theorem icon_is_a_class_name (filename : string) :
  (exists name,
     fileExtIcon filename = ClassName name
     /\ In name ["text-red-400"; "text-blue-400"; "text-green-400";
                 "text-indigo-400"; "text-(--color-text-dim)"])
  \/ (fileExtIcon filename = Inherited (extension filename)
      /\ (extension filename = "constructor" \/ extension filename = "__proto__")).
Proof.
  unfold fileExtIcon.
  destruct (extension filename =? "pdf"); [left; eexists; split; [reflexivity | simpl; auto]|].
  destruct (extension filename =? "txt"); [left; eexists; split; [reflexivity | simpl; auto]|].
  destruct (extension filename =? "md"); [left; eexists; split; [reflexivity | simpl; auto]|].
  destruct (extension filename =? "docx"); [left; eexists; split; [reflexivity | simpl; auto]|].
  destruct (String.eqb_spec (extension filename) "constructor") as [E|_].
  - right. simpl. auto.
  - destruct (String.eqb_spec (extension filename) "__proto__") as [E|_].
    + right. simpl. auto.
    + left. eexists. split; [reflexivity | simpl; auto 6].
Qed.

(** ** The prompt editor *)

Lemma act_originalPrompt (a : Action) (st : PromptEditor) (text : string) :
  originalPrompt st = text ->
  originalPrompt (act a st)
  = match a with
    | Save (Return _) => prompt st
    | Load (Return p) => p
    | _ => text
    end.
Proof.
  intros H. destruct a as [t | [v|e] | | [p|e]]; simpl; auto.
Qed.

(** After any actions of the user, [originalPrompt] is the text of the last
    save or load that succeeded (what it was before, if there was none);
    saves and loads that fail do not move it.  So the editor has changes
    exactly when its text differs from that text, and "Reset" brings that
    text back and leaves no changes. *)
Theorem baseline_is_what_the_server_holds
    (actions : list Action) (st : PromptEditor) (text : string) :
  originalPrompt st = text ->
  let st' := acts actions st in
  originalPrompt st' = stored actions st text
  /\ (hasChanges st' = false <-> prompt st' = stored actions st text)
  /\ prompt (handleReset st') = stored actions st text
  /\ hasChanges (handleReset st') = false.
Proof.
  intros H st'.
  assert (E : originalPrompt st' = stored actions st text).
  { subst st'. revert st text H.
    induction actions as [|a actions IH]; intros st text H; [exact H|].
    cbn [acts fold_left stored]. apply (IH (act a st)).
    now apply act_originalPrompt. }
  split; [exact E|]. split; [|split].
  - unfold hasChanges. rewrite Bool.negb_false_iff, String.eqb_eq, E. reflexivity.
  - cbn [handleReset prompt]. exact E.
  - unfold hasChanges. cbn [handleReset prompt originalPrompt].
    now rewrite String.eqb_refl.
Qed.

Lemma baseline_is_what_the_server_holds_witness :
  prompt (handleReset
            (acts [Load (Return "Be brief."); Edit "Be brief. Be kind.";
                   Save (Return JNull); Edit "Be rude."; Save (Throw TypeError)]
               PromptEditor_initial))
  = "Be brief. Be kind.".
Proof.
  apply (proj1 (proj2 (proj2
           (baseline_is_what_the_server_holds
              [Load (Return "Be brief."); Edit "Be brief. Be kind.";
               Save (Return JNull); Edit "Be rude."; Save (Throw TypeError)]
              PromptEditor_initial "" eq_refl)))).
Defined.

(** ** The first version of the voice agent *)

(** The first version asks for a token for the room "voice-agent-room" and
    a participant named after the clock, and reads the answer under the
    names [token] and [livekit_url] only.  When the answer comes, the
    component counts as connected and shows no error, but the room is
    rendered only if both of these fields are there and not empty.  When
    the call fails, only the error changes.  It is never left
    connecting. *)
Theorem first_version_reads_token_and_livekit_url
    (base : option string) (fetch : Request -> outcome Response)
    (now : Z) (st : VoiceAgent1) :
  let call := getToken base fetch
                [Some "voice-agent-room"; Some ("user-" ++ string_of_Z now)%string] in
  let st' := fst (handleConnect1 base fetch now st) in
  isConnecting1 st' = false
  /\ snd (handleConnect1 base fetch now st)
     = [mkRequest (API_BASE base ++ "/token")%string (Some "POST")
          [("Content-Type", "application/json")]
          (JsonBody (JObject [("room_name", JString "voice-agent-room");
                              ("participant_name",
                               JString ("user-" ++ string_of_Z now))]))]
  /\ (forall data,
        result call = Return data -> data <> JNull ->
        isConnected1 st' = true
        /\ error1 st' = None
        /\ room_rendered st' = present data "token" && present data "livekit_url")
  /\ (forall e,
        result call = Throw e ->
        st' = mkVoiceAgent1 (isConnected1 st) false (token st) (livekitUrl st) (Some e)).
Proof.
  intros call st'. subst st'. unfold handleConnect1. fold call. cbn [fst snd].
  split; [|split; [reflexivity|split]].
  - destruct (bind (result call) _) as [[t u]|e]; reflexivity.
  - intros data -> Hnull. cbn [bind]. unfold room_rendered, present.
    destruct data; try contradiction; cbn [get bind isConnected1 error1 token livekitUrl];
      repeat split; reflexivity.
  - intros e ->. reflexivity.
Qed.

Lemma first_version_reads_token_and_livekit_url_witness :
  isConnected1 (fst (handleConnect1 None sample_fetch 1700000000000 VoiceAgent1_initial))
  = true
  /\ error1 (fst (handleConnect1 None sample_fetch 1700000000000 VoiceAgent1_initial))
     = None
  /\ room_rendered (fst (handleConnect1 None sample_fetch 1700000000000
                           VoiceAgent1_initial))
     = false.
Proof.
  destruct (proj1 (proj2 (proj2
              (first_version_reads_token_and_livekit_url None sample_fetch
                 1700000000000 VoiceAgent1_initial)))
              sample_token_response eq_refl ltac:(discriminate)) as (C & E & R).
  split; [exact C|]. split; [exact E|]. rewrite R. reflexivity.
Defined.
